(** * bledger: the bcoin signing orchestrator and its input descriptors

    A shallow embedding of [lib/bcoin.js] (class [LedgerBcoin]) and
    [lib/txinput.js] (class [LedgerTXInput]).

    The bcoin primitives, the secp256k1 binding, the path parser and the
    protocol driver ([LedgerBTC]) are collaborators that live outside the two
    modelled files.  They are taken as parameters: the primitives through the
    type classes [BcoinTypes] and [Bcoin], the protocol driver as a record of
    oracles that answer each call from the history of the calls made so far.
    JavaScript objects that are mutated in place (the instance, the
    transaction being signed, the descriptors) live in an explicit [World],
    and every method is a computation in a state-and-exception monad over
    it. *)

From Stdlib Require Import ZArith List Bool Lia.
From Stdlib Require Import Init.Byte.
From stdpp Require Import base option list strings gmap.
Import ListNotations.
Local Open Scope string_scope.
Local Open Scope list_scope.
Local Open Scope Z_scope.

(** ** Exceptions and the state-and-exception monad *)

(** The exceptions the two files throw or let through. *)
Inductive Exn : Type :=
| AssertionError (msg : string)
| Error (msg : string)
| LedgerError (msg : string)
| TypeError (msg : string).

(** Result of running a method body: it returns or it throws.  The state
    reached is kept in both cases, as mutations survive a JavaScript throw. *)
Inductive Outcome (A : Type) : Type :=
| Returned (a : A)
| Threw (e : Exn).
Arguments Returned {A} a.
Arguments Threw {A} e.

Definition M (S A : Type) : Type := S -> Outcome A * S.

Definition ret {S A} (a : A) : M S A := fun s => (Returned a, s).

Definition throw {S A} (e : Exn) : M S A := fun s => (Threw e, s).

Definition bind {S A B} (m : M S A) (k : A -> M S B) : M S B :=
  fun s =>
    match m s with
    | (Returned a, s1) => k a s1
    | (Threw e, s1) => (Threw e, s1)
    end.

Definition gets {S A} (f : S -> A) : M S A := fun s => (Returned (f s), s).

Definition modify {S} (f : S -> S) : M S unit := fun s => (Returned tt, f s).

(** A collaborator that may throw is a function into [Exn + A]. *)
Definition lift {S A} (r : Exn + A) : M S A :=
  match r with
  | inl e => throw e
  | inr a => ret a
  end.

(** Node's [assert(cond, msg)]. *)
Definition assert {S} (cond : bool) (msg : string) : M S unit :=
  if cond then ret tt else throw (AssertionError msg).

Declare Scope js_scope.
Delimit Scope js_scope with js.
Notation "x <- m ;; k" := (bind m (fun x => k))
  (at level 100, m at next level, right associativity) : js_scope.
Notation "m ;;; k" := (bind m (fun _ => k))
  (at level 100, right associativity) : js_scope.
Local Open Scope js_scope.

(** ** The bcoin collaborators *)

Definition Buffer : Type := list byte.

(** Opaque bcoin values. *)
Class BcoinTypes : Type := {
  Network : Type;
  (** [bcoin.Script] *)
  Script : Type;
  (** [bcoin.Witness] *)
  Witness : Type;
  (** [bcoin.TX], a previous transaction *)
  TX : Type;
  Outpoint : Type;
  Coin : Type;
  KeyRing : Type;
  HDPublicKey : Type;
  (** everything of an [MTX] but its input list *)
  TxBody : Type;
  (** reply of [ledger.getTrustedInput] *)
  TrustedInput : Type;
}.

(** [bcoin.Input]: the fields the orchestrator touches. *)
Module Input.
Section Def.
Context `{BcoinTypes}.
Record t : Type := mk {
  prevout : Outpoint;
  script : Script;
  witness : Witness;
}.
Definition set_script (v : Script) (i : t) : t :=
  mk (prevout i) v (witness i).
Definition set_witness (v : Witness) (i : t) : t :=
  mk (prevout i) (script i) v.
End Def.
End Input.

(** [bcoin.MTX]: the mutable transaction that is being signed. *)
Module MTX.
Section Def.
Context `{BcoinTypes}.
Record t : Type := mk {
  inputs : list Input.t;
  body : TxBody;
}.
Definition set_inputs (l : list Input.t) (m : t) : t := mk l (body m).
End Def.
End MTX.

(** Options handed to [new HDPublicKey]. *)
Module HDOptions.
Section Def.
Context `{BcoinTypes}.
Record t : Type := mk {
  depth : nat;
  (** [indexes[indexes.length - 1]], undefined for an empty path *)
  childIndex : option Z;
  parentFingerPrint : Z;
  chainCode : Buffer;
  publicKey : Buffer;
  network : Network;
}.
End Def.
End HDOptions.

(** The operations of bcoin, bcrypto and [utils/util] that the two files
    call.  One that can throw returns [Exn + _]; one that answers with a
    falsy value on failure returns an [option] or a [bool]. *)
Class Bcoin `{BcoinTypes} : Type := {
  (** [Script.hashType.ALL] *)
  hashType_ALL : Z;
  (** [util.parsePath(path, hardened)] *)
  parsePath : string -> bool -> Exn + list Z;
  TX_fromRaw : Buffer -> Exn + TX;
  (** [tx.outputs[index].script]; [None] when the output does not exist *)
  TX_output_script : TX -> Z -> option Script;
  (** [Outpoint.fromTX(tx, index)] *)
  Outpoint_fromTX : TX -> Z -> Exn + Outpoint;
  (** [outpoint.toKey()] *)
  Outpoint_toKey : Outpoint -> string;
  (** [Coin.fromTX(tx, index, height)] *)
  Coin_fromTX : TX -> Z -> Z -> Exn + Coin;
  (** [coin.script] *)
  Coin_script : Coin -> Script;
  (** [KeyRing.fromPublic(publicKey, network)] *)
  KeyRing_fromPublic : Buffer -> Network -> Exn + KeyRing;
  (** [ring.script = redeem] *)
  KeyRing_set_script : Script -> KeyRing -> KeyRing;
  (** [ring.witness = true] *)
  KeyRing_set_witness : bool -> KeyRing -> KeyRing;
  Script_isScripthash : Script -> bool;
  Script_isWitnessScripthash : Script -> bool;
  Script_getWitnessPubkeyhash : Script -> option Buffer;
  Script_fromPubkeyhash : Buffer -> Script;
  (** [input.script.getRedeem()] *)
  Script_getRedeem : Script -> option Script;
  (** [input.witness.getRedeem()] *)
  Witness_getRedeem : Witness -> option Script;
  (** [vector.toStack()] and [vector.fromStack(stack)] on a script *)
  Script_toStack : Script -> Exn + list Buffer;
  Script_fromStack : list Buffer -> Script;
  (** the same on a witness *)
  Witness_toStack : Witness -> Exn + list Buffer;
  Witness_fromStack : list Buffer -> Witness;
  (** [secp256k1.publicKeyConvert(key, compress)] *)
  secp256k1_publicKeyConvert : Buffer -> bool -> Exn + Buffer;
  (** [new HDPublicKey(options)] and [hd.publicKey] *)
  HDPublicKey_new : HDOptions.t -> Exn + HDPublicKey;
  HDPublicKey_publicKey : HDPublicKey -> Buffer;
  (** [tx.scriptInput(index, coin, ring)]: templates the input in place and
      answers whether it could; the index is [None] when the caller passes
      [undefined] *)
  MTX_scriptInput : MTX.t -> option nat -> Coin -> KeyRing -> Exn + (bool * MTX.t);
  (** [tx.signVector(prev, stack, sig, ring)]: the completed stack, a falsy
      value when it declines to sign, or an exception *)
  MTX_signVector : MTX.t -> Script -> list Buffer -> Buffer -> KeyRing ->
                   Exn + option (list Buffer);
}.

(** ** lib/txinput.js *)

(** JavaScript values found in the [options] object of a descriptor. *)
Module Options.
Section Def.
Context `{BcoinTypes}.

(** A truthy [options.path] (the empty string, which is falsy, is a
    [PathString] all the same). *)
Inductive PathVal : Type :=
| PathString (s : string)
| PathArray (p : list Z)
| PathOther.

Inductive TxVal : Type :=
| TxBuffer (raw : Buffer)
| TxObject (tx : TX)
| TxOther.

(** [options.index]: an integer, a number that is not an integer, or a
    value that is not a number (which covers a missing index). *)
Inductive IndexVal : Type :=
| IndexInt (z : Z)
| IndexNonInt
| IndexNotNumber.

Inductive RedeemVal : Type :=
| RedeemScript (s : Script)
| RedeemOther.

Inductive KeyVal : Type :=
| KeyBuffer (b : Buffer)
| KeyOther.

(** [None] stands for a field that is undefined or null (or, for [path]
    and [tx], any other falsy value). *)
Record t : Type := mk {
  path : option PathVal;
  tx : option TxVal;
  index : IndexVal;
  type : option Z;
  redeem : option RedeemVal;
  publicKey : option KeyVal;
  (** [Boolean(options.witness)] when the field is given *)
  witness : option bool;
}.
End Def.
End Options.

Module LedgerTXInput.
Section Def.
Context `{Bcoin}.

Record t : Type := mk {
  path : list Z;
  tx : option TX;
  index : Z;
  witness : bool;
  redeem : option Script;
  type : Z;
  publicKey : option Buffer;
  _ring : option KeyRing;
  _coin : option Coin;
  _key : string;
  _prev : option Script;
  _outpoint : option Outpoint;
}.

Definition set_path v (d : t) : t :=
  mk v (tx d) (index d) (witness d) (redeem d) (type d) (publicKey d)
     (_ring d) (_coin d) (_key d) (_prev d) (_outpoint d).
Definition set_tx v (d : t) : t :=
  mk (path d) v (index d) (witness d) (redeem d) (type d) (publicKey d)
     (_ring d) (_coin d) (_key d) (_prev d) (_outpoint d).
Definition set_index v (d : t) : t :=
  mk (path d) (tx d) v (witness d) (redeem d) (type d) (publicKey d)
     (_ring d) (_coin d) (_key d) (_prev d) (_outpoint d).
Definition set_witness v (d : t) : t :=
  mk (path d) (tx d) (index d) v (redeem d) (type d) (publicKey d)
     (_ring d) (_coin d) (_key d) (_prev d) (_outpoint d).
Definition set_redeem v (d : t) : t :=
  mk (path d) (tx d) (index d) (witness d) v (type d) (publicKey d)
     (_ring d) (_coin d) (_key d) (_prev d) (_outpoint d).
Definition set_type v (d : t) : t :=
  mk (path d) (tx d) (index d) (witness d) (redeem d) v (publicKey d)
     (_ring d) (_coin d) (_key d) (_prev d) (_outpoint d).
Definition set_publicKey v (d : t) : t :=
  mk (path d) (tx d) (index d) (witness d) (redeem d) (type d) v
     (_ring d) (_coin d) (_key d) (_prev d) (_outpoint d).
Definition set__ring v (d : t) : t :=
  mk (path d) (tx d) (index d) (witness d) (redeem d) (type d) (publicKey d)
     v (_coin d) (_key d) (_prev d) (_outpoint d).
Definition set__coin v (d : t) : t :=
  mk (path d) (tx d) (index d) (witness d) (redeem d) (type d) (publicKey d)
     (_ring d) v (_key d) (_prev d) (_outpoint d).
Definition set__key v (d : t) : t :=
  mk (path d) (tx d) (index d) (witness d) (redeem d) (type d) (publicKey d)
     (_ring d) (_coin d) v (_prev d) (_outpoint d).
Definition set__prev v (d : t) : t :=
  mk (path d) (tx d) (index d) (witness d) (redeem d) (type d) (publicKey d)
     (_ring d) (_coin d) (_key d) v (_outpoint d).
Definition set__outpoint v (d : t) : t :=
  mk (path d) (tx d) (index d) (witness d) (redeem d) (type d) (publicKey d)
     (_ring d) (_coin d) (_key d) (_prev d) v.

(** The fields as the constructor leaves them before it looks at its
    options ([_outpoint] is not assigned there and starts undefined). *)
Definition init : t :=
  {| path := []; tx := None; index := 0; witness := false; redeem := None;
     type := hashType_ALL; publicKey := None;
     _ring := None; _coin := None; _key := ""; _prev := None;
     _outpoint := None |}.

(** [isU32(value)]: [(value >>> 0) === value]. *)
Definition isU32 (value : Options.IndexVal) : bool :=
  match value with
  | Options.IndexInt z => Z.eqb (z mod 2 ^ 32) z
  | _ => false
  end.

Definition string_nonempty (s : string) : bool :=
  match s with
  | EmptyString => false
  | _ => true
  end.

Definition truthy_path (p : option Options.PathVal) : bool :=
  match p with
  | None => false
  | Some (Options.PathString s) => string_nonempty s
  | Some _ => true
  end.

(** [fromOptions(options)], run on the descriptor [this]. *)
Definition fromOptions (options : option Options.t) : M t unit :=
  match options with
  | None => throw (AssertionError "SignInput data is required.")
  | Some o =>
    assert (truthy_path (Options.path o)) "Path is required." ;;;
    path' <- match Options.path o with
             | Some (Options.PathString s) =>
                 p <- lift (parsePath s true) ;; ret (Some p)
             | Some (Options.PathArray p) => ret (Some p)
             | _ => ret None
             end ;;
    p <- match path' with
         | Some p => ret p
         | None => throw (AssertionError "Path must be Array or string")
         end ;;
    modify (set_path p) ;;;
    assert (bool_decide (is_Some (Options.tx o))) "Tx is required." ;;;
    tx' <- match Options.tx o with
           | Some (Options.TxBuffer raw) =>
               x <- lift (TX_fromRaw raw) ;; ret (Some x)
           | Some (Options.TxObject x) => ret (Some x)
           | _ => ret None
           end ;;
    x <- match tx' with
         | Some x => ret x
         | None => throw (AssertionError "Cannot use non-transaction tx.")
         end ;;
    modify (set_tx (Some x)) ;;;
    i <- match Options.index o with
         | Options.IndexNotNumber =>
             throw (AssertionError "Output index is required.")
         | Options.IndexNonInt =>
             throw (AssertionError "Output index must be a uint32.")
         | Options.IndexInt z =>
             assert (isU32 (Options.IndexInt z))
                    "Output index must be a uint32." ;;;
             ret z
         end ;;
    modify (set_index i) ;;;
    match Options.type o with
    | Some ty =>
        assert (negb (Z.eqb ty hashType_ALL))
               "Ledger only supports SIGHASH_ALL" ;;;
        modify (set_type ty)
    | None => ret tt
    end ;;;
    match Options.redeem o with
    | Some (Options.RedeemScript s) => modify (set_redeem (Some s))
    | Some Options.RedeemOther =>
        throw (AssertionError "Cannot use non-script redeem.")
    | None => ret tt
    end ;;;
    match Options.publicKey o with
    | Some (Options.KeyBuffer b) => modify (set_publicKey (Some b))
    | Some Options.KeyOther =>
        throw (AssertionError "Cannot set non-buffer public key")
    | None => ret tt
    end ;;;
    match Options.witness o with
    | Some b => modify (set_witness b)
    | None => ret tt
    end
  end.

(** [LedgerTXInput.fromOptions(options)], the same as
    [new LedgerTXInput().fromOptions(options)]: the descriptor, or the
    exception that construction throws. *)
Definition new_fromOptions (options : option Options.t) : Exn + t :=
  match fromOptions options init with
  | (Returned _, d) => inr d
  | (Threw e, _) => inl e
  end.

(** [getOutpoint()] *)
Definition getOutpoint : M t Outpoint :=
  o <- gets _outpoint ;;
  match o with
  | Some op => ret op
  | None =>
      x <- gets tx ;;
      i <- gets index ;;
      op <- match x with
            | Some x => lift (Outpoint_fromTX x i)
            | None => throw (AssertionError "Outpoint.fromTX: no tx")
            end ;;
      modify (set__outpoint (Some op)) ;;;
      ret op
  end.

(** [toKey()] *)
Definition toKey : M t string :=
  k <- gets _key ;;
  (if string_nonempty k then ret tt
   else op <- getOutpoint ;; modify (set__key (Outpoint_toKey op))) ;;;
  gets _key.

(** [getPrev()] *)
Definition getPrev : M t Script :=
  p <- gets _prev ;;
  match p with
  | Some s => ret s
  | None =>
      x <- gets tx ;;
      i <- gets index ;;
      match x with
      | None => throw (TypeError "Cannot read property 'outputs' of null")
      | Some x =>
          match TX_output_script x i with
          | None => throw (TypeError "Cannot read property 'script' of undefined")
          | Some s => modify (set__prev (Some s)) ;;; ret s
          end
      end
  end.

(** [getCoin(height = 0)] *)
Definition getCoin (height : Z) : M t Coin :=
  c <- gets _coin ;;
  match c with
  | Some c => ret c
  | None =>
      x <- gets tx ;;
      i <- gets index ;;
      c <- match x with
           | Some x => lift (Coin_fromTX x i height)
           | None => throw (AssertionError "Coin.fromTX: no tx")
           end ;;
      modify (set__coin (Some c)) ;;;
      ret c
  end.

(** [getRing(network)].  The ring object is stored in [_ring] and then
  completed in place; no step in between can throw, so the model builds
  the completed ring and stores it once. *)
Definition getRing (network : Network) : M t KeyRing :=
  pk <- gets publicKey ;;
  match pk with
  | None => throw (LedgerError "Cannot return ring without public key")
  | Some pk =>
      r <- gets _ring ;;
      match r with
      | Some ring => ret ring
      | None =>
          ring0 <- lift (KeyRing_fromPublic pk network) ;;
          rd <- gets redeem ;;
          wit <- gets witness ;;
          let ring1 := match rd with
                       | Some s => KeyRing_set_script s ring0
                       | None => ring0
                       end in
          let ring2 := if wit then KeyRing_set_witness true ring1 else ring1 in
          modify (set__ring (Some ring2)) ;;;
          ret ring2
      end
  end.

(** [refresh()] *)
Definition refresh : M t unit :=
  modify (set__coin None) ;;;
  modify (set__ring None) ;;;
  modify (set__key "") ;;;
  modify (set__prev None) ;;;
  modify (set__outpoint None).
End Def.
End LedgerTXInput.

(** ** The protocol driver, seen from the orchestrator *)

Module LedgerBTC.
Section Def.
Context `{Bcoin}.

(** What [ledger.getPublicKey] resolves to. *)
Record PublicKeyData : Type := mkData {
    publicKey : Buffer;
    chainCode : Buffer;
  }.

(** One call of the orchestrator into the protocol driver, with its
    arguments. *)
Inductive Call : Type :=
| getPublicKey (path : list Z) (addressFlags : Z)
| getTrustedInput (tx : option TX) (index : Z)
| hashTransactionStart (tx : MTX.t) (trustedInputs : gmap string TrustedInput)
    (isNew witness : bool)
| hashTransactionStartNullify (tx : MTX.t) (key : string) (prev : Script)
    (trustedInputs : gmap string TrustedInput) (isNew witness : bool)
| hashOutputFinalize (tx : MTX.t)
| hashTransactionStartSegwit (tx : MTX.t) (key : string) (prev : Script)
| hashSign (tx : MTX.t) (path : list Z) (type : Z).

(** How the call settled. *)
Inductive Reply : Type :=
| Rejected (e : Exn)
| PublicKeyReply (data : PublicKeyData)
| TrustedInputReply (trustedInput : TrustedInput)
| Resolved
| SignatureReply (sig : Buffer).

Record Event : Type := mkEvent {
    call : Call;
    reply : Reply;
  }.

(** The driver and the device behind it: each method answers from the
    history of the calls made so far and its arguments, and either rejects
    with an exception or resolves. *)
Record t : Type := mk {
    on_getPublicKey : list Event -> list Z -> Z -> Exn + PublicKeyData;
    on_getTrustedInput : list Event -> option TX -> Z -> Exn + TrustedInput;
    on_hashTransactionStart :
      list Event -> MTX.t -> gmap string TrustedInput -> bool -> bool -> Exn + unit;
    on_hashTransactionStartNullify :
      list Event -> MTX.t -> string -> Script -> gmap string TrustedInput ->
      bool -> bool -> Exn + unit;
    on_hashOutputFinalize : list Event -> MTX.t -> Exn + unit;
    on_hashTransactionStartSegwit :
      list Event -> MTX.t -> string -> Script -> Exn + unit;
    on_hashSign : list Event -> MTX.t -> list Z -> Z -> Exn + Buffer;
  }.
End Def.
End LedgerBTC.

(** ** The signing lock *)

(** Modelled from the spec: the lock of the external [bmutex] package, whose
    source is not part of the repository.  The spec describes it as an
    acquire/release lock around the whole [signTransaction] call on which
    callers wait while it is held.  For one caller at a time that is a busy
    flag: acquiring a free lock takes it, acquiring a held lock does not
    resolve, releasing frees it. *)
Module Lock.
Record t : Type := mk { busy : bool }.

(** [new Lock(false)] *)
Definition new : t := {| busy := false |}.

(** [lock()]: the lock once taken, or [None] while the caller has to wait. *)
Definition lock (l : t) : option t :=
  if busy l then None else Some {| busy := true |}.

(** the [unlock] callback that [lock()] resolves to *)
Definition unlock (l : t) : t := {| busy := false |}.
End Lock.

(** ** lib/bcoin.js *)

Module LedgerBcoin.
Section Def.
Context `{Bcoin}.

(** The objects a signing run works on.  The descriptors are reached through
    references, so that an array naming one descriptor twice shares it. *)
Record World : Type := mkWorld {
    (** [this.device] and [this.ledger], set together by [set] *)
    ledger : option LedgerBTC.t;
    (** [this.network] *)
    network : Network;
    (** [this.signingTX] *)
    signingTX : bool;
    (** [this.txlock] *)
    txlock : Lock.t;
    (** the calls made into the protocol driver so far, oldest first *)
    calls : list LedgerBTC.Event;
    (** the [LedgerTXInput] objects *)
    heap : nat -> LedgerTXInput.t;
    (** the [MTX] object handed to [signTransaction] *)
    mtx : MTX.t;
  }.

Definition set_signingTX v (w : World) : World :=
  mkWorld (ledger w) (network w) v (txlock w) (calls w) (heap w) (mtx w).
Definition set_txlock v (w : World) : World :=
  mkWorld (ledger w) (network w) (signingTX w) v (calls w) (heap w) (mtx w).
Definition set_calls v (w : World) : World :=
  mkWorld (ledger w) (network w) (signingTX w) (txlock w) v (heap w) (mtx w).
Definition set_heap v (w : World) : World :=
  mkWorld (ledger w) (network w) (signingTX w) (txlock w) (calls w) v (mtx w).
Definition set_mtx v (w : World) : World :=
  mkWorld (ledger w) (network w) (signingTX w) (txlock w) (calls w) (heap w) v.

(** The [tx] argument of [signTransaction]: the [MTX] object of the world,
    or some value that is not an [MTX]. *)
Inductive TxArg : Type :=
| TheMTX
| NotMTX.

(** [MTX.isMTX(tx)] *)
Definition isMTX (tx : TxArg) : bool :=
  match tx with
  | TheMTX => true
  | NotMTX => false
  end.

Definition upd (h : nat -> LedgerTXInput.t) (r : nat) (d : LedgerTXInput.t)
  : nat -> LedgerTXInput.t :=
  fun r' => if Nat.eqb r' r then d else h r'.

(** Run a method of the descriptor behind reference [li]. *)
Definition on {A} (li : nat) (m : M LedgerTXInput.t A) : M World A :=
  fun w =>
    let (o, d) := m (heap w li) in
    (o, set_heap (upd (heap w) li d) w).

(** [await this.ledger.method(args)]: the call and its reply are appended to
    the history; a rejection is thrown. *)
Definition perform {A} (c : LedgerBTC.Call)
    (answer : LedgerBTC.t -> list LedgerBTC.Event -> Exn + A)
    (rep : A -> LedgerBTC.Reply) : M World A :=
  fun w =>
    match ledger w with
    | None => (Threw (TypeError "Cannot read property of null"), w)
    | Some d =>
        match answer d (calls w) with
        | inl e =>
            (Threw e,
             set_calls (calls w ++ [LedgerBTC.mkEvent c (LedgerBTC.Rejected e)]) w)
        | inr a =>
            (Returned a,
             set_calls (calls w ++ [LedgerBTC.mkEvent c (rep a)]) w)
        end
    end.

Definition ledger_getPublicKey (path : list Z) (addressFlags : Z)
  : M World LedgerBTC.PublicKeyData :=
  perform (LedgerBTC.getPublicKey path addressFlags)
    (fun d h => LedgerBTC.on_getPublicKey d h path addressFlags)
    LedgerBTC.PublicKeyReply.

Definition ledger_getTrustedInput (tx : option TX) (index : Z)
  : M World TrustedInput :=
  perform (LedgerBTC.getTrustedInput tx index)
    (fun d h => LedgerBTC.on_getTrustedInput d h tx index)
    LedgerBTC.TrustedInputReply.

Definition ledger_hashTransactionStart (tx : MTX.t)
    (trustedInputs : gmap string TrustedInput) (isNew witness : bool)
  : M World unit :=
  perform (LedgerBTC.hashTransactionStart tx trustedInputs isNew witness)
    (fun d h => LedgerBTC.on_hashTransactionStart d h tx trustedInputs isNew witness)
    (fun _ => LedgerBTC.Resolved).

Definition ledger_hashTransactionStartNullify (tx : MTX.t) (key : string)
    (prev : Script) (trustedInputs : gmap string TrustedInput)
    (isNew witness : bool) : M World unit :=
  perform (LedgerBTC.hashTransactionStartNullify tx key prev trustedInputs isNew witness)
    (fun d h =>
       LedgerBTC.on_hashTransactionStartNullify d h tx key prev trustedInputs isNew witness)
    (fun _ => LedgerBTC.Resolved).

Definition ledger_hashOutputFinalize (tx : MTX.t) : M World unit :=
  perform (LedgerBTC.hashOutputFinalize tx)
    (fun d h => LedgerBTC.on_hashOutputFinalize d h tx)
    (fun _ => LedgerBTC.Resolved).

Definition ledger_hashTransactionStartSegwit (tx : MTX.t) (key : string)
    (prev : Script) : M World unit :=
  perform (LedgerBTC.hashTransactionStartSegwit tx key prev)
    (fun d h => LedgerBTC.on_hashTransactionStartSegwit d h tx key prev)
    (fun _ => LedgerBTC.Resolved).

Definition ledger_hashSign (tx : MTX.t) (path : list Z) (type : Z)
  : M World Buffer :=
  perform (LedgerBTC.hashSign tx path type)
    (fun d h => LedgerBTC.on_hashSign d h tx path type)
    LedgerBTC.SignatureReply.

(** [getPublicKey(path, addressFlags = 0)] *)
Definition getPublicKey (path : option Options.PathVal) (addressFlags : Z)
  : M World HDPublicKey :=
  dev <- gets ledger ;;
  assert (bool_decide (is_Some dev)) "this.device" ;;;
  assert (LedgerTXInput.truthy_path path) "path" ;;;
  path' <- match path with
           | Some (Options.PathString s) =>
               p <- lift (parsePath s true) ;; ret (Some p)
           | Some (Options.PathArray p) => ret (Some p)
           | _ => ret None
           end ;;
  indexes <- match path' with
             | Some p => ret p
             | None => throw (AssertionError "Path must be string or array")
             end ;;
  data <- ledger_getPublicKey indexes addressFlags ;;
  let rawPubkey := LedgerBTC.publicKey data in
  compressedPubkey <- lift (secp256k1_publicKeyConvert rawPubkey true) ;;
  net <- gets network ;;
  lift (HDPublicKey_new
          {| HDOptions.depth := length indexes;
             HDOptions.childIndex := last indexes;
             HDOptions.parentFingerPrint := 0;
             HDOptions.chainCode := LedgerBTC.chainCode data;
             HDOptions.publicKey := compressedPubkey;
             HDOptions.network := net |}).

(** First loop of [_signTransaction]: update public keys for keyrings. *)
Fixpoint updatePublicKeys (ledgerInputs : list nat) : M World unit :=
  match ledgerInputs with
  | [] => ret tt
  | li :: rest =>
      d <- gets (fun w => heap w li) ;;
      match LedgerTXInput.publicKey d with
      | Some _ => ret tt
      | None =>
          hd <- getPublicKey (Some (Options.PathArray (LedgerTXInput.path d))) 0 ;;
          on li (modify (LedgerTXInput.set_publicKey
                           (Some (HDPublicKey_publicKey hd))))
      end ;;;
      updatePublicKeys rest
  end.

(** Second loop: collect trusted inputs.  The accumulator is the map
    [trustedInputs] and the flag [hasWitness]. *)
Fixpoint collectTrustedInputs (ledgerInputs : list nat)
    (trustedInputs : gmap string TrustedInput) (hasWitness : bool)
  : M World (gmap string TrustedInput * bool) :=
  match ledgerInputs with
  | [] => ret (trustedInputs, hasWitness)
  | li :: rest =>
      d <- gets (fun w => heap w li) ;;
      if LedgerTXInput.witness d then
        collectTrustedInputs rest trustedInputs true
      else if bool_decide (is_Some (LedgerTXInput.redeem d)) then
        collectTrustedInputs rest trustedInputs hasWitness
      else
        pokey <- on li LedgerTXInput.toKey ;;
        d <- gets (fun w => heap w li) ;;
        trustedInput <- ledger_getTrustedInput (LedgerTXInput.tx d)
                          (LedgerTXInput.index d) ;;
        collectTrustedInputs rest (<[pokey := trustedInput]> trustedInputs)
          hasWitness
  end.

(** Third loop: find indexes in transaction, from index [i] on. *)
Fixpoint findIndexes (i : nat) (inputs : list Input.t)
    (txIndexByKey : gmap string nat) : gmap string nat :=
  match inputs with
  | [] => txIndexByKey
  | input :: rest =>
      let pokey := Outpoint_toKey (Input.prevout input) in
      findIndexes (S i) rest (<[pokey := i]> txIndexByKey)
  end.

(** The vector of an input that receives the signature: [input.script] or
    [input.witness]. *)
Inductive Vector : Type :=
| ScriptSig
| WitnessVector.

(** The locals [prev], [vector], [redeem] and [witness] of [signInput] once
    the previous output script is classified. *)
Record Classified : Type := mkClassified {
    c_prev : Script;
    c_vector : Vector;
    c_redeem : bool;
    c_witness : bool;
  }.

(** Lines 225-261 of [signInput], on the templated input. *)
Definition classify (coinScript : Script) (input : Input.t) : Exn + Classified :=
  let p2sh :=
    if Script_isScripthash coinScript then
      match Script_getRedeem (Input.script input) with
      | None => inl (Error "Redeem Script not found")
      | Some p => inr (p, true)
      end
    else inr (coinScript, false) in
  match p2sh with
  | inl e => inl e
  | inr (prev, redeem) =>
      if Script_isWitnessScripthash prev then
        match Witness_getRedeem (Input.witness input) with
        | None => inl (Error "Input has not been templated.")
        | Some p => inr (mkClassified p WitnessVector true true)
        end
      else
        match Script_getWitnessPubkeyhash prev with
        | Some wpkh =>
            inr (mkClassified (Script_fromPubkeyhash wpkh) WitnessVector false true)
        | None => inr (mkClassified prev ScriptSig redeem false)
        end
  end.

(** [tx.scriptInput(index, coin, ring)] on the transaction of the world. *)
Definition scriptInput (index : option nat) (coin : Coin) (ring : KeyRing)
  : M World bool :=
  fun w =>
    match MTX_scriptInput (mtx w) index coin ring with
    | inl e => (Threw e, w)
    | inr (templated, tx') => (Returned templated, set_mtx tx' w)
    end.

(** [tx.inputs[index]]; reading a field of it throws when it is undefined. *)
Definition inputAt (index : option nat) : M World (nat * Input.t) :=
  tx <- gets mtx ;;
  match index with
  | None => throw (TypeError "Cannot read property of undefined")
  | Some i =>
      match MTX.inputs tx !! i with
      | None => throw (TypeError "Cannot read property of undefined")
      | Some input => ret (i, input)
      end
  end.

(** [vector.toStack()] *)
Definition toStack (vector : Vector) (input : Input.t) : Exn + list Buffer :=
  match vector with
  | ScriptSig => Script_toStack (Input.script input)
  | WitnessVector => Witness_toStack (Input.witness input)
  end.

(** [vector.fromStack(result)], which rewrites the vector in place. *)
Definition fromStack (vector : Vector) (result : list Buffer) (input : Input.t)
  : Input.t :=
  match vector with
  | ScriptSig => Input.set_script (Script_fromStack result) input
  | WitnessVector => Input.set_witness (Witness_fromStack result) input
  end.

Definition writeVector (i : nat) (vector : Vector) (result : list Buffer)
  : M World unit :=
  modify (fun w =>
    set_mtx (MTX.set_inputs (alter (fromStack vector result) i (MTX.inputs (mtx w)))
               (mtx w)) w).

(** [stack.pop()]: the last item, or null on an empty stack. *)
Definition pop (stack : list Buffer) : option Buffer * list Buffer :=
  (last stack, removelast stack).

(** [result.push(item)], which asserts that the item is a buffer. *)
Definition push (result : list Buffer) (item : option Buffer) : Exn + list Buffer :=
  match item with
  | Some b => inr (result ++ [b])
  | None => inl (AssertionError "Buffer.isBuffer(item)")
  end.

(** The locals of [signInput] that are live when the signature is folded
    into the input. *)
Record Prepared : Type := mkPrepared {
    p_index : nat;
    p_input : Input.t;
    p_class : Classified;
    p_ring : KeyRing;
    p_sig : Buffer;
    (** [vector.toStack()], the first statement of either branch *)
    p_stack : list Buffer;
  }.

(** Lines 214-282 of [signInput], and the [vector.toStack()] that opens
    both branches after them: template the input, classify the previous
    output script, run the hashing pass of its variant and ask for the
    signature.  [scriptInput] templates the input object in place, so the
    handle [input] taken on entry and read afterwards is the input at
    [index] of the templated transaction. *)
Definition hashAndSign (ledgerInput : nat)
    (trustedInputs : gmap string TrustedInput) (index : option nat)
    (isNew : bool) : M World Prepared :=
  inputKey <- on ledgerInput LedgerTXInput.toKey ;;
  net <- gets network ;;
  ring <- on ledgerInput (LedgerTXInput.getRing net) ;;
  coin <- on ledgerInput (LedgerTXInput.getCoin 0) ;;
  templated <- scriptInput index coin ring ;;
  (if templated then ret tt else throw (Error "Could not template input")) ;;;
  located <- inputAt index ;;
  c <- lift (classify (Coin_script coin) (snd located)) ;;
  tx <- gets mtx ;;
  (if negb (c_witness c) then
     ledger_hashTransactionStartNullify tx inputKey (c_prev c) trustedInputs
       isNew (c_witness c) ;;;
     ledger_hashOutputFinalize tx
   else
     ledger_hashTransactionStartSegwit tx inputKey (c_prev c)) ;;;
  d <- gets (fun w => heap w ledgerInput) ;;
  sig <- ledger_hashSign tx (LedgerTXInput.path d) (LedgerTXInput.type d) ;;
  located <- inputAt index ;;
  stack <- lift (toStack (c_vector c) (snd located)) ;;
  ret (mkPrepared (fst located) (snd located) c ring sig stack).

(** Lines 284-308 of [signInput]: fold the signature into the vector. *)
Definition foldSignature (p : Prepared) : M World bool :=
  tx <- gets mtx ;;
  let prev := c_prev (p_class p) in
  let vector := c_vector (p_class p) in
  if c_redeem (p_class p) then
    let (redeem, stack) := pop (p_stack p) in
    match MTX_signVector tx prev stack (p_sig p) (p_ring p) with
    | inl e => throw e
    | inr None => ret false
    | inr (Some result) =>
        result <- lift (push result redeem) ;;
        writeVector (p_index p) vector result ;;;
        ret true
    end
  else
    match MTX_signVector tx prev (p_stack p) (p_sig p) (p_ring p) with
    | inl e => throw e
    | inr None => ret false
    | inr (Some result) =>
        writeVector (p_index p) vector result ;;;
        ret true
    end.

(** [signInput(tx, ledgerInput, trustedInputs, index, isNew)], with [tx] the
    transaction of the world. *)
Definition signInput (ledgerInput : nat)
    (trustedInputs : gmap string TrustedInput) (index : option nat)
    (isNew : bool) : M World bool :=
  p <- hashAndSign ledgerInput trustedInputs index isNew ;;
  foldSignature p.

(** Last loop of [_signTransaction]: sign every descriptor in turn. *)
Fixpoint signInputs (ledgerInputs : list nat)
    (trustedInputs : gmap string TrustedInput) (txIndexByKey : gmap string nat)
    (newtx : bool) : M World unit :=
  match ledgerInputs with
  | [] => ret tt
  | li :: rest =>
      pokey <- on li LedgerTXInput.toKey ;;
      let index := txIndexByKey !! pokey in
      signInput li trustedInputs index newtx ;;;
      signInputs rest trustedInputs txIndexByKey false
  end.

(** [_signTransaction(tx, ledgerInputs)] *)
Definition _signTransaction (tx : TxArg) (ledgerInputs : list nat)
  : M World TxArg :=
  assert (isMTX tx) "Cannot use non-MTX tx for signing" ;;;
  modify (set_signingTX true) ;;;
  updatePublicKeys ledgerInputs ;;;
  collected <- collectTrustedInputs ledgerInputs ∅ false ;;
  let (trustedInputs, hasWitness) := collected : gmap string TrustedInput * bool in
  t <- gets mtx ;;
  let txIndexByKey := findIndexes 0 (MTX.inputs t) ∅ in
  newtx <- (if hasWitness then
              ledger_hashTransactionStart t ∅ true true ;;;
              ledger_hashOutputFinalize t ;;;
              ret false
            else ret true) ;;
  signInputs ledgerInputs trustedInputs txIndexByKey newtx ;;;
  modify (set_signingTX false) ;;;
  ret tx.

(** [signTransaction(tx, ledgerInputs)]: [None] while the call waits for the
    lock; otherwise the body runs and the [finally] clause releases the lock
    whether the body returned or threw. *)
Definition signTransaction (tx : TxArg) (ledgerInputs : list nat) (w : World)
  : option (Outcome TxArg * World) :=
  match Lock.lock (txlock w) with
  | None => None
  | Some held =>
      let (o, w1) := _signTransaction tx ledgerInputs (set_txlock held w) in
      Some (o, set_txlock (Lock.unlock (txlock w1)) w1)
  end.
End Def.
End LedgerBcoin.

(** ** A small instance to run the model on

    Scripts are a kind and a list of pushed items, a previous transaction is
    its id and the script of the output that is spent, and templating finds
    every input templated already.  [signVector] declines, with a falsy
    result, a script of a kind it does not sign, throws on a multisig script
    whose vector has fewer than two items, and otherwise puts the signature
    in front of the stack. *)

Module Toy.

Inductive Kind : Type :=
| Pubkeyhash
| Scripthash
| WitnessScripthash
| WitnessPubkeyhash
| Multisig
| Nonstandard.

Record ToyScript : Type := mkScript {
    kind : Kind;
    items : list Buffer;
  }.

Definition plain : ToyScript := mkScript Pubkeyhash [].

#[local] Instance types : BcoinTypes := {|
  Network := unit;
  Script := ToyScript;
  Witness := list Buffer;
  TX := string * ToyScript;
  Outpoint := string * Z;
  Coin := ToyScript;
  KeyRing := Buffer;
  HDPublicKey := Buffer;
  TxBody := unit;
  TrustedInput := Buffer;
|}.

Definition getRedeem (stack : list Buffer) : option ToyScript :=
  match last stack with
  | Some _ => Some plain
  | None => None
  end.


#[local] Instance ops : Bcoin := {|
  hashType_ALL := 1;
  parsePath := fun _ _ => inr [44; 0; 0];
  TX_fromRaw := fun _ => inl (Error "not a transaction");
  TX_output_script := fun tx _ => Some (snd tx);
  Outpoint_fromTX := fun tx i => inr (fst tx, i);
  Outpoint_toKey := fun op => fst op;
  Coin_fromTX := fun tx _ _ => inr (snd tx);
  Coin_script := fun c => c;
  KeyRing_fromPublic := fun pk _ => inr pk;
  KeyRing_set_script := fun _ r => r;
  KeyRing_set_witness := fun _ r => r;
  Script_isScripthash := fun s =>
    match kind s with Scripthash => true | _ => false end;
  Script_isWitnessScripthash := fun s =>
    match kind s with WitnessScripthash => true | _ => false end;
  Script_getWitnessPubkeyhash := fun s =>
    match kind s with WitnessPubkeyhash => Some [] | _ => None end;
  Script_fromPubkeyhash := fun _ => plain;
  Script_getRedeem := fun s => getRedeem (items s);
  Witness_getRedeem := getRedeem;
  Script_toStack := fun s => inr (items s);
  Script_fromStack := fun l => mkScript Pubkeyhash l;
  Witness_toStack := fun w => inr w;
  Witness_fromStack := fun l => l;
  secp256k1_publicKeyConvert := fun k _ => inr k;
  HDPublicKey_new := fun o => inr (HDOptions.publicKey o);
  HDPublicKey_publicKey := fun h => h;
  MTX_scriptInput := fun m _ _ _ => inr (true, m);
  MTX_signVector := fun _ prev stack sig _ =>
    match kind prev, stack with
    | Nonstandard, _ => inr None
    | Multisig, ([] | [_]) => inl (Error "Input has not been templated.")
    | _, _ => inr (Some (sig :: stack))
    end;
|}.

(** A device that resolves every call; [hashSign] answers [sig], or rejects
    when [reject] is set. *)
Definition device (sig : Buffer) (reject : bool) : LedgerBTC.t :=
  {| LedgerBTC.on_getPublicKey := fun _ _ _ =>
       inr (LedgerBTC.mkData [x02] [x00]);
     LedgerBTC.on_getTrustedInput := fun _ _ _ => inr [x01];
     LedgerBTC.on_hashTransactionStart := fun _ _ _ _ _ => inr tt;
     LedgerBTC.on_hashTransactionStartNullify := fun _ _ _ _ _ _ _ => inr tt;
     LedgerBTC.on_hashOutputFinalize := fun _ _ => inr tt;
     LedgerBTC.on_hashTransactionStartSegwit := fun _ _ _ _ => inr tt;
     LedgerBTC.on_hashSign := fun _ _ _ _ =>
       if reject then inl (LedgerError "status 0x6985") else inr sig |}.

Definition descriptor (txid : string) (k : Kind) (witness : bool)
    (redeem : option ToyScript) : LedgerTXInput.t :=
  {| LedgerTXInput.path := [44; 0; 0];
     LedgerTXInput.tx := Some (txid, mkScript k []);
     LedgerTXInput.index := 0;
     LedgerTXInput.witness := witness;
     LedgerTXInput.redeem := redeem;
     LedgerTXInput.type := 1;
     LedgerTXInput.publicKey := None;
     LedgerTXInput._ring := None;
     LedgerTXInput._coin := None;
     LedgerTXInput._key := "";
     LedgerTXInput._prev := None;
     LedgerTXInput._outpoint := None |}.

(** Descriptor 0 spends a plain output, descriptor 1 a P2SH output with an
    explicit redeem script, every other reference a witness-pubkeyhash
    output. *)
Definition descriptors (li : nat) : LedgerTXInput.t :=
  match li with
  | 0%nat => descriptor "aa" Pubkeyhash false None
  | 1%nat => descriptor "bb" Scripthash false (Some plain)
  | _ => descriptor "cc" WitnessPubkeyhash true None
  end.

(** The transaction spends the three outputs in the order "cc", "aa", "bb";
    the P2SH input is templated with its redeem script last. *)
Definition tx0 : MTX.t :=
  {| MTX.inputs :=
       [ Input.mk ("cc", 0) plain [];
         Input.mk ("aa", 0) plain [];
         Input.mk ("bb", 0) (mkScript Pubkeyhash [[]; [x51; xae]]) [] ];
     MTX.body := tt |}.

Definition world (dev : option LedgerBTC.t) : LedgerBcoin.World :=
  {| LedgerBcoin.ledger := dev;
     LedgerBcoin.network := tt;
     LedgerBcoin.signingTX := false;
     LedgerBcoin.txlock := Lock.new;
     LedgerBcoin.calls := [];
     LedgerBcoin.heap := descriptors;
     LedgerBcoin.mtx := tx0 |}.

(** The device signs with a two-byte signature. *)
Definition w_signing : LedgerBcoin.World := world (Some (device [x30; x00] false)).

(** The device answers [hashSign] with the empty signature. *)
Definition w_blank : LedgerBcoin.World := world (Some (device [] false)).

(** The device rejects [hashSign]. *)
Definition w_rejecting : LedgerBcoin.World := world (Some (device [] true)).

(** Descriptor 0 spends an output whose script is of no kind that
    [signVector] signs, descriptor 1 a bare multisig output, every other
    reference the plain output "aa". *)
Definition others (li : nat) : LedgerTXInput.t :=
  match li with
  | 0%nat => descriptor "dd" Nonstandard false None
  | 1%nat => descriptor "ee" Multisig false None
  | _ => descriptor "aa" Pubkeyhash false None
  end.

(** The transaction spends "dd", "aa" and "ee"; the inputs of "dd" and "ee"
    come with a script-sig of one item, so that templating leaves them
    alone. *)
Definition tx1 : MTX.t :=
  {| MTX.inputs :=
       [ Input.mk ("dd", 0) (mkScript Pubkeyhash [[x01]]) [];
         Input.mk ("aa", 0) plain [];
         Input.mk ("ee", 0) (mkScript Pubkeyhash [[x01]]) [] ];
     MTX.body := tt |}.

(** The signing device with these descriptors and this transaction. *)
Definition w_others : LedgerBcoin.World :=
  LedgerBcoin.set_mtx tx1 (LedgerBcoin.set_heap others w_signing).

(** The world once every descriptor has its public key. *)
Definition keyed (w : LedgerBcoin.World) : LedgerBcoin.World :=
  LedgerBcoin.set_heap
    (fun li => LedgerTXInput.set_publicKey (Some [x02]) (LedgerBcoin.heap w li))
    w.

(** The kind of call of each event of a history. *)
Definition trace (w : LedgerBcoin.World) : list string :=
  map (fun e =>
         match LedgerBTC.call e with
         | LedgerBTC.getPublicKey _ _ => "getPublicKey"
         | LedgerBTC.getTrustedInput _ _ => "getTrustedInput"
         | LedgerBTC.hashTransactionStart _ _ _ _ => "hashTransactionStart"
         | LedgerBTC.hashTransactionStartNullify _ _ _ _ isNew _ =>
             if isNew then "hashTransactionStartNullify(new)"
             else "hashTransactionStartNullify"
         | LedgerBTC.hashOutputFinalize _ => "hashOutputFinalize"
         | LedgerBTC.hashTransactionStartSegwit _ _ _ => "hashTransactionStartSegwit"
         | LedgerBTC.hashSign _ _ _ => "hashSign"
         end) (LedgerBcoin.calls w).

(** A descriptor that was used before: it carries the key and the outpoint
    of another transaction in its cache. *)
Definition stale : LedgerTXInput.t :=
  LedgerTXInput.set__key "zz"
    (LedgerTXInput.set__outpoint (Some ("zz", 9))
       (descriptor "aa" Pubkeyhash false None)).

(** Options that name the output 7 of transaction "aa". *)
Definition options : Options.t :=
  Options.mk (Some (Options.PathArray [44; 0; 0]))
    (Some (Options.TxObject ("aa", plain)))
    (Options.IndexInt 7) None None None None.
End Toy.


(** ** Observations on a run *)

(** [post m s Q]: the outcome and the final state of [m] run from [s]
    satisfy [Q]. *)
Definition post {S A} (m : M S A) (s : S) (Q : Outcome A -> S -> Prop) : Prop :=
  forall o s', m s = (o, s') -> Q o s'.

(** The methods of the protocol driver. *)
Inductive Method : Type :=
| GetPublicKey
| GetTrustedInput
| HashTransactionStart
| HashTransactionStartNullify
| HashOutputFinalize
| HashTransactionStartSegwit
| HashSign.

#[global] Instance Method_eq_dec : EqDecision Method.
Proof. solve_decision. Defined.

Section Observations.
Context `{Bcoin}.

(** What [toKey()] answers on a descriptor, whatever its cache holds. *)
Definition keyOf (d : LedgerTXInput.t) : Exn + string :=
  match LedgerTXInput.toKey d with
  | (Returned k, _) => inr k
  | (Threw e, _) => inl e
  end.

(** The second descriptor still has the required fields of the first and
    answers the same key. *)
Definition same_required (d d' : LedgerTXInput.t) : Prop :=
  LedgerTXInput.path d' = LedgerTXInput.path d /\
  LedgerTXInput.tx d' = LedgerTXInput.tx d /\
  LedgerTXInput.index d' = LedgerTXInput.index d /\
  LedgerTXInput.witness d' = LedgerTXInput.witness d /\
  LedgerTXInput.redeem d' = LedgerTXInput.redeem d /\
  LedgerTXInput.type d' = LedgerTXInput.type d /\
  keyOf d' = keyOf d.

(** [step w w' evs]: from [w] to [w'] the instance fields and the required
    fields of every descriptor are kept, and the events [evs] were appended
    to the history. *)
Definition step (w w' : LedgerBcoin.World) (evs : list LedgerBTC.Event) : Prop :=
  LedgerBcoin.ledger w' = LedgerBcoin.ledger w /\
  LedgerBcoin.network w' = LedgerBcoin.network w /\
  LedgerBcoin.signingTX w' = LedgerBcoin.signingTX w /\
  LedgerBcoin.txlock w' = LedgerBcoin.txlock w /\
  (forall li, same_required (LedgerBcoin.heap w li) (LedgerBcoin.heap w' li)) /\
  LedgerBcoin.calls w' = LedgerBcoin.calls w ++ evs.

Definition method (e : LedgerBTC.Event) : Method :=
  match LedgerBTC.call e with
  | LedgerBTC.getPublicKey _ _ => GetPublicKey
  | LedgerBTC.getTrustedInput _ _ => GetTrustedInput
  | LedgerBTC.hashTransactionStart _ _ _ _ => HashTransactionStart
  | LedgerBTC.hashTransactionStartNullify _ _ _ _ _ _ => HashTransactionStartNullify
  | LedgerBTC.hashOutputFinalize _ => HashOutputFinalize
  | LedgerBTC.hashTransactionStartSegwit _ _ _ => HashTransactionStartSegwit
  | LedgerBTC.hashSign _ _ _ => HashSign
  end.

(** The events of a history that are calls of method [m]. *)
Definition callsTo (m : Method) (evs : list LedgerBTC.Event)
  : list LedgerBTC.Event :=
  filter (fun e => method e = m) evs.

(** The event is one of the three calls that start a hashing pass. *)
Definition isHashStart (e : LedgerBTC.Event) : bool :=
  match method e with
  | HashTransactionStart | HashTransactionStartNullify
  | HashTransactionStartSegwit => true
  | _ => false
  end.

(** The [isNew] argument of a [hashTransactionStartNullify] call. *)
Definition nullifyFlag (e : LedgerBTC.Event) : option bool :=
  match LedgerBTC.call e with
  | LedgerBTC.hashTransactionStartNullify _ _ _ _ isNew _ => Some isNew
  | _ => None
  end.

(** The [trustedInputs] argument of a [hashTransactionStartNullify] call. *)
Definition nullifyTrusted (e : LedgerBTC.Event)
  : option (gmap string TrustedInput) :=
  match LedgerBTC.call e with
  | LedgerBTC.hashTransactionStartNullify _ _ _ trustedInputs _ _ =>
      Some trustedInputs
  | _ => None
  end.

(** The event opens the signing of one input: a nullify pass with the given
    [trustedInputs] and [isNew], or a segwit pass. *)
Definition opensInput (trustedInputs : gmap string TrustedInput) (isNew : bool)
    (e : LedgerBTC.Event) : Prop :=
  match LedgerBTC.call e with
  | LedgerBTC.hashTransactionStartNullify _ _ _ tm b _ =>
      tm = trustedInputs /\ b = isNew
  | LedgerBTC.hashTransactionStartSegwit _ _ _ => True
  | _ => False
  end.

(** The event belongs to the signing of an input that is not the first call
    of the loop. *)
Definition laterInLoop (trustedInputs : gmap string TrustedInput)
    (e : LedgerBTC.Event) : Prop :=
  match LedgerBTC.call e with
  | LedgerBTC.hashTransactionStartNullify _ _ _ tm b _ =>
      tm = trustedInputs /\ b = false
  | LedgerBTC.hashTransactionStartSegwit _ _ _ => True
  | LedgerBTC.hashOutputFinalize _ => True
  | LedgerBTC.hashSign _ _ _ => True
  | _ => False
  end.

(** Events of one [signInput]: none when it threw before its hashing pass,
    else the call that opens the input and then only [hashOutputFinalize]
    and [hashSign]. *)
Definition inputShape (trustedInputs : gmap string TrustedInput) (isNew : bool)
    {A} (o : Outcome A) (evs : list LedgerBTC.Event) : Prop :=
  match evs with
  | [] => exists e, o = Threw e
  | e :: rest =>
      opensInput trustedInputs isNew e /\
      Forall (fun e' => method e' = HashOutputFinalize \/ method e' = HashSign) rest
  end.

(** Events of the signing loop entered with [newtx]. *)
Definition loopShape (trustedInputs : gmap string TrustedInput) (newtx : bool)
    (evs : list LedgerBTC.Event) : Prop :=
  match evs with
  | [] => True
  | e :: rest =>
      opensInput trustedInputs newtx e /\ Forall (laterInLoop trustedInputs) rest
  end.

(** The descriptor is one the second loop asks a trusted input for. *)
Definition wantsTrustedInput (d : LedgerTXInput.t) : bool :=
  negb (LedgerTXInput.witness d) &&
  negb (bool_decide (is_Some (LedgerTXInput.redeem d))).

(** One trusted input as the second loop obtains it: the descriptor, the
    key it is stored under and the token. *)
Definition Entry : Type := nat * string * TrustedInput.

Definition entryEvent (w : LedgerBcoin.World) (en : Entry) : LedgerBTC.Event :=
  let d := LedgerBcoin.heap w (fst (fst en)) in
  LedgerBTC.mkEvent
    (LedgerBTC.getTrustedInput (LedgerTXInput.tx d) (LedgerTXInput.index d))
    (LedgerBTC.TrustedInputReply (snd en)).

Definition storeEntry (m : gmap string TrustedInput) (en : Entry)
  : gmap string TrustedInput :=
  <[snd (fst en) := snd en]> m.

(** The entries are those of the descriptors [lis] that want a trusted
    input, in order, each under the key of its descriptor. *)
Definition entriesOf (w : LedgerBcoin.World) (lis : list nat)
    (entries : list Entry) : Prop :=
  map (fun en : Entry => fst (fst en)) entries =
    filter (fun li => wantsTrustedInput (LedgerBcoin.heap w li) = true) lis /\
  Forall (fun en : Entry =>
            keyOf (LedgerBcoin.heap w (fst (fst en))) = inr (snd (fst en)))
         entries.

(** The [getTrustedInput] call the second loop makes for a descriptor. *)
Definition trustedCall (w : LedgerBcoin.World) (li : nat) : LedgerBTC.Call :=
  let d := LedgerBcoin.heap w li in
  LedgerBTC.getTrustedInput (LedgerTXInput.tx d) (LedgerTXInput.index d).

(** Some descriptor of the array has [witness] set. *)
Definition anyWitness (w : LedgerBcoin.World) (lis : list nat) : bool :=
  existsb (fun li => LedgerTXInput.witness (LedgerBcoin.heap w li)) lis.

(** The shared priming pass on transaction [t]. *)
Definition primingPass (t : MTX.t) : list LedgerBTC.Event :=
  [ LedgerBTC.mkEvent (LedgerBTC.hashTransactionStart t ∅ true true)
      LedgerBTC.Resolved;
    LedgerBTC.mkEvent (LedgerBTC.hashOutputFinalize t) LedgerBTC.Resolved ].

(** A priming pass that was cut short by a rejection. *)
Definition primingAttempt (evs : list LedgerBTC.Event) : Prop :=
  match evs with
  | [] => True
  | [a] => method a = HashTransactionStart
  | [a; b] => method a = HashTransactionStart /\ method b = HashOutputFinalize
  | _ => False
  end.

(** The events of a run of [_signTransaction] on descriptors [lis] from
    world [w], by the phase in which the run ended. *)
Inductive RunShape (w : LedgerBcoin.World) (lis : list nat)
  : Outcome LedgerBcoin.TxArg -> list LedgerBTC.Event -> Prop :=
| EndedInKeys e keys :
    Forall (fun ev => method ev = GetPublicKey) keys ->
    RunShape w lis (Threw e) keys
| EndedInTrusted e keys trusted :
    Forall (fun ev => method ev = GetPublicKey) keys ->
    Forall (fun ev => method ev = GetTrustedInput) trusted ->
    map LedgerBTC.call trusted `prefix_of`
      map (trustedCall w)
        (filter (fun li => wantsTrustedInput (LedgerBcoin.heap w li) = true) lis) ->
    RunShape w lis (Threw e) (keys ++ trusted)
| EndedInPriming e keys entries priming :
    Forall (fun ev => method ev = GetPublicKey) keys ->
    entriesOf w lis entries ->
    anyWitness w lis = true ->
    primingAttempt priming ->
    RunShape w lis (Threw e) (keys ++ map (entryEvent w) entries ++ priming)
| ReachedLoop o keys entries t loop :
    Forall (fun ev => method ev = GetPublicKey) keys ->
    entriesOf w lis entries ->
    loopShape (foldl storeEntry ∅ entries) (negb (anyWitness w lis)) loop ->
    RunShape w lis o
      (keys ++ map (entryEvent w) entries ++
       (if anyWitness w lis then primingPass t else []) ++ loop).

(** The path and the type of a [hashSign] call. *)
Definition signArgs (e : LedgerBTC.Event) : option (list Z * Z) :=
  match LedgerBTC.call e with
  | LedgerBTC.hashSign _ path type => Some (path, type)
  | _ => None
  end.

(** The input key of a call that opens the signing of an input. *)
Definition passKey (e : LedgerBTC.Event) : option string :=
  match LedgerBTC.call e with
  | LedgerBTC.hashTransactionStartNullify _ key _ _ _ _ => Some key
  | LedgerBTC.hashTransactionStartSegwit _ key _ => Some key
  | _ => None
  end.
End Observations.

(** * Proofs *)

(** ** Reasoning rules of the monad *)

Lemma post_ret {S A} (a : A) (s : S) (Q : Outcome A -> S -> Prop) :
  Q (Returned a) s -> post (ret a) s Q.
Proof. intros HQ o s' [= <- <-]. exact HQ. Qed.

Lemma post_throw {S A} (e : Exn) (s : S) (Q : Outcome A -> S -> Prop) :
  Q (Threw e) s -> post (throw e) s Q.
Proof. intros HQ o s' [= <- <-]. exact HQ. Qed.

Lemma post_gets {S A} (f : S -> A) (s : S) (Q : Outcome A -> S -> Prop) :
  Q (Returned (f s)) s -> post (gets f) s Q.
Proof. intros HQ o s' [= <- <-]. exact HQ. Qed.

Lemma post_modify {S} (f : S -> S) (s : S) (Q : Outcome unit -> S -> Prop) :
  Q (Returned tt) (f s) -> post (modify f) s Q.
Proof. intros HQ o s' [= <- <-]. exact HQ. Qed.

Lemma post_bind {S A B} (m : M S A) (k : A -> M S B) (s : S)
    (Q : Outcome B -> S -> Prop) :
  post m s (fun o s1 =>
              match o with
              | Returned a => post (k a) s1 Q
              | Threw e => Q (Threw e) s1
              end) ->
  post (bind m k) s Q.
Proof.
  intros Hm o s' Hrun. unfold bind in Hrun.
  destruct (m s) as [[a|e] s1] eqn:E.
  - exact (Hm _ _ E _ _ Hrun).
  - injection Hrun as <- <-. exact (Hm _ _ E).
Qed.

Lemma post_mono {S A} (m : M S A) (s : S) (Q Q' : Outcome A -> S -> Prop) :
  post m s Q -> (forall o s', Q o s' -> Q' o s') -> post m s Q'.
Proof. intros Hm HQ o s' Hrun. apply HQ, Hm, Hrun. Qed.

Lemma post_run {S A} (m : M S A) (s : S) (Q : Outcome A -> S -> Prop) :
  post m s Q -> Q (fst (m s)) (snd (m s)).
Proof. intros Hm. apply Hm. destruct (m s); reflexivity. Qed.

(** One step of a proof about a monadic program. *)
Ltac mstep :=
  lazymatch goal with
  | |- post (bind _ _) _ _ => apply post_bind
  | |- post (ret _) _ _ => apply post_ret
  | |- post (throw _) _ _ => apply post_throw
  | |- post (gets _) _ _ => apply post_gets
  | |- post (modify _) _ _ => apply post_modify
  | |- post (lift ?r) _ _ => destruct r eqn:?; cbn [lift]
  | |- post (assert ?c _) _ _ => destruct c eqn:?; cbn [assert]
  | |- post (if ?c then _ else _) _ _ => destruct c eqn:?
  | |- post (match ?x with _ => _ end) _ _ => destruct x eqn:?
  | |- post (let (_, _) := ?x in _) _ _ => destruct x eqn:?
  end; cbv beta iota.

(** Use the specification [Hspec] of the computation that comes first. *)
Ltac muse Hspec :=
  lazymatch goal with
  | |- post (bind _ _) _ _ =>
      apply post_bind; eapply post_mono; [apply Hspec | cbv beta]
  | |- post _ _ _ => eapply post_mono; [apply Hspec | cbv beta]
  end.

Section Proofs.
Context `{Bcoin}.

(** ** The descriptor *)

Lemma isU32_range (z : Z) :
  0 <= z < 2 ^ 32 -> LedgerTXInput.isU32 (Options.IndexInt z) = true.
Proof.
  intros Hz. unfold LedgerTXInput.isU32.
  rewrite Z.mod_small by exact Hz. apply Z.eqb_refl.
Qed.

(** C1: on options with a valid path, transaction and index, construction
    throws "Ledger only supports SIGHASH_ALL" exactly when the type that is
    supplied is SIGHASH_ALL; any other supplied type is accepted and stored,
    and a missing type leaves the default SIGHASH_ALL. *)
Theorem fromOptions_type_check (p : list Z) (x : TX) (i : Z)
    (wit : option bool) :
  0 <= i < 2 ^ 32 ->
  let options ty :=
    Some (Options.mk (Some (Options.PathArray p)) (Some (Options.TxObject x))
            (Options.IndexInt i) ty None None wit) in
  LedgerTXInput.new_fromOptions (options (Some hashType_ALL)) =
    inl (AssertionError "Ledger only supports SIGHASH_ALL") /\
  (forall ty, ty <> hashType_ALL ->
     exists d, LedgerTXInput.new_fromOptions (options (Some ty)) = inr d /\
               LedgerTXInput.type d = ty) /\
  (exists d, LedgerTXInput.new_fromOptions (options None) = inr d /\
             LedgerTXInput.type d = hashType_ALL).
Proof.
  intros Hi options. pose proof (isU32_range i Hi) as Hu.
  unfold LedgerTXInput.isU32 in Hu.
  repeat split.
  - unfold LedgerTXInput.new_fromOptions, options, LedgerTXInput.fromOptions.
    cbn. unfold bind at 1. cbn. rewrite Hu. cbn.
    rewrite Z.eqb_refl. reflexivity.
  - intros ty Hty.
    unfold LedgerTXInput.new_fromOptions, options, LedgerTXInput.fromOptions.
    cbn. unfold bind at 1. cbn. rewrite Hu. cbn.
    apply Z.eqb_neq in Hty. rewrite Hty. cbn.
    destruct wit; cbn; eexists; split; reflexivity.
  - unfold LedgerTXInput.new_fromOptions, options, LedgerTXInput.fromOptions.
    cbn. unfold bind at 1. cbn. rewrite Hu. cbn.
    destruct wit; cbn; eexists; split; reflexivity.
Qed.

(** C8: [refresh()] returns after clearing the five cached fields, and no
    other field of the descriptor is changed. *)
Theorem refresh_clears_cache_only (d : LedgerTXInput.t) :
  exists d',
    LedgerTXInput.refresh d = (Returned tt, d') /\
    LedgerTXInput._coin d' = None /\
    LedgerTXInput._ring d' = None /\
    LedgerTXInput._key d' = "" /\
    LedgerTXInput._prev d' = None /\
    LedgerTXInput._outpoint d' = None /\
    LedgerTXInput.path d' = LedgerTXInput.path d /\
    LedgerTXInput.tx d' = LedgerTXInput.tx d /\
    LedgerTXInput.index d' = LedgerTXInput.index d /\
    LedgerTXInput.witness d' = LedgerTXInput.witness d /\
    LedgerTXInput.redeem d' = LedgerTXInput.redeem d /\
    LedgerTXInput.type d' = LedgerTXInput.type d /\
    LedgerTXInput.publicKey d' = LedgerTXInput.publicKey d.
Proof.
  eexists. split; [reflexivity|]. cbn. repeat split.
Qed.

Lemma same_required_refl (d : LedgerTXInput.t) : same_required d d.
Proof. unfold same_required. repeat split. Qed.

Lemma same_required_trans (d1 d2 d3 : LedgerTXInput.t) :
  same_required d1 d2 -> same_required d2 d3 -> same_required d1 d3.
Proof.
  unfold same_required. intros (?&?&?&?&?&?&?) (?&?&?&?&?&?&?).
  repeat split; congruence.
Qed.

(** The key depends on the transaction, the index and the two caches it
    goes through only. *)
Lemma keyOf_congr (d d' : LedgerTXInput.t) :
  LedgerTXInput._key d' = LedgerTXInput._key d ->
  LedgerTXInput._outpoint d' = LedgerTXInput._outpoint d ->
  LedgerTXInput.tx d' = LedgerTXInput.tx d ->
  LedgerTXInput.index d' = LedgerTXInput.index d ->
  keyOf d' = keyOf d.
Proof.
  destruct d as [p x i w r ty pk rg cn k pv op],
    d' as [p' x' i' w' r' ty' pk' rg' cn' k' pv' op'].
  cbn. intros -> -> -> ->.
  unfold keyOf, LedgerTXInput.toKey, LedgerTXInput.getOutpoint, bind, gets,
    modify, ret, throw, lift. cbn.
  destruct (LedgerTXInput.string_nonempty k); [reflexivity|].
  destruct op; cbn; [reflexivity|].
  destruct x as [x|]; cbn; [|reflexivity].
  destruct (Outpoint_fromTX x i); reflexivity.
Qed.

Lemma same_required_caches (d d' : LedgerTXInput.t) :
  LedgerTXInput.path d' = LedgerTXInput.path d ->
  LedgerTXInput.tx d' = LedgerTXInput.tx d ->
  LedgerTXInput.index d' = LedgerTXInput.index d ->
  LedgerTXInput.witness d' = LedgerTXInput.witness d ->
  LedgerTXInput.redeem d' = LedgerTXInput.redeem d ->
  LedgerTXInput.type d' = LedgerTXInput.type d ->
  LedgerTXInput._key d' = LedgerTXInput._key d ->
  LedgerTXInput._outpoint d' = LedgerTXInput._outpoint d ->
  same_required d d'.
Proof.
  intros. unfold same_required. repeat split; try assumption.
  apply keyOf_congr; assumption.
Qed.

(** [toKey()] fills caches only, and answers the key of the descriptor. *)
Lemma toKey_spec (d : LedgerTXInput.t) :
  post LedgerTXInput.toKey d (fun o d' =>
    same_required d d' /\ forall k, o = Returned k -> keyOf d = inr k).
Proof.
  intros o d' Hrun. unfold keyOf. rewrite Hrun.
  split; [|intros k ->; reflexivity].
  revert Hrun. destruct d as [p x i w r ty pk rg cn k pv op].
  unfold LedgerTXInput.toKey, LedgerTXInput.getOutpoint, bind, gets,
    modify, ret, throw, lift. cbn.
  destruct (LedgerTXInput.string_nonempty k) eqn:Ek.
  - intros [= <- <-]. apply same_required_refl.
  - destruct op as [op|]; cbn.
    + intros [= <- <-]. unfold same_required. cbn. repeat split.
      unfold keyOf, LedgerTXInput.toKey, LedgerTXInput.getOutpoint, bind,
        gets, modify, ret, throw, lift. cbn.
      destruct (LedgerTXInput.string_nonempty (Outpoint_toKey op)) eqn:Ek';
        cbn; rewrite ?Ek; reflexivity.
    + destruct x as [x|]; cbn.
      * destruct (Outpoint_fromTX x i) as [e|op] eqn:Eo; cbn.
        -- intros [= <- <-]. apply same_required_refl.
        -- intros [= <- <-]. unfold same_required. cbn. repeat split.
           unfold keyOf, LedgerTXInput.toKey, LedgerTXInput.getOutpoint, bind,
             gets, modify, ret, throw, lift. cbn.
           destruct (LedgerTXInput.string_nonempty (Outpoint_toKey op)) eqn:Ek';
             cbn; rewrite ?Ek; cbn; rewrite ?Eo; reflexivity.
      * intros [= <- <-]. apply same_required_refl.
Qed.

Lemma getRing_spec (net : Network) (d : LedgerTXInput.t) :
  post (LedgerTXInput.getRing net) d (fun _ d' => same_required d d').
Proof.
  intros o d'. destruct d as [p x i w r ty pk rg cn k pv op].
  unfold LedgerTXInput.getRing, bind, gets, modify, ret, throw, lift. cbn.
  destruct pk as [pk|]; cbn.
  - destruct rg; cbn.
    + intros [= <- <-]. apply same_required_refl.
    + destruct (KeyRing_fromPublic pk net); cbn;
        intros [= <- <-]; apply same_required_caches; reflexivity.
  - intros [= <- <-]. apply same_required_refl.
Qed.

Lemma getCoin_spec (height : Z) (d : LedgerTXInput.t) :
  post (LedgerTXInput.getCoin height) d (fun _ d' => same_required d d').
Proof.
  intros o d'. destruct d as [p x i w r ty pk rg cn k pv op].
  unfold LedgerTXInput.getCoin, bind, gets, modify, ret, throw, lift. cbn.
  destruct cn; cbn.
  - intros [= <- <-]. apply same_required_refl.
  - destruct x as [x|]; cbn.
    + destruct (Coin_fromTX x i height); cbn;
        intros [= <- <-]; apply same_required_caches; reflexivity.
    + intros [= <- <-]. apply same_required_refl.
Qed.

Lemma set_publicKey_spec (v : option Buffer) (d : LedgerTXInput.t) :
  post (modify (LedgerTXInput.set_publicKey v)) d
    (fun o d' => same_required d d' /\ o = Returned tt).
Proof.
  intros o d' [= <- <-]. split; [|reflexivity].
  apply same_required_caches; reflexivity.
Qed.

(** ** Steps of the orchestrator *)

Ltac split_step :=
  unfold step; refine (conj _ (conj _ (conj _ (conj _ (conj _ _))))); cbn.

Lemma step_refl (w : LedgerBcoin.World) : step w w [].
Proof.
  split_step; try reflexivity.
  - intros r. apply same_required_refl.
  - rewrite app_nil_r. reflexivity.
Qed.

Lemma step_trans (w1 w2 w3 : LedgerBcoin.World) (e1 e2 : list LedgerBTC.Event) :
  step w1 w2 e1 -> step w2 w3 e2 -> step w1 w3 (e1 ++ e2).
Proof.
  unfold step. intros (?&?&?&?&Hh1&Hc1) (?&?&?&?&Hh2&Hc2).
  split_step; try congruence.
  - intros r. eapply same_required_trans; [apply Hh1 | apply Hh2].
  - rewrite Hc2, Hc1, app_assoc. reflexivity.
Qed.

Lemma step_silent (w1 w2 w3 : LedgerBcoin.World) (evs : list LedgerBTC.Event) :
  step w1 w2 [] -> step w2 w3 evs -> step w1 w3 evs.
Proof. intros H1 H2. exact (step_trans _ _ _ [] evs H1 H2). Qed.

Lemma step_heap (w : LedgerBcoin.World) (li : nat) (d' : LedgerTXInput.t) :
  same_required (LedgerBcoin.heap w li) d' ->
  step w (LedgerBcoin.set_heap (LedgerBcoin.upd (LedgerBcoin.heap w) li d') w) [].
Proof.
  intros Hd. split_step; try reflexivity.
  - intros r. unfold LedgerBcoin.upd.
    destruct (Nat.eqb_spec r li) as [->|]; [exact Hd | apply same_required_refl].
  - rewrite app_nil_r. reflexivity.
Qed.

Lemma step_mtx (w : LedgerBcoin.World) (t : MTX.t) :
  step w (LedgerBcoin.set_mtx t w) [].
Proof.
  split_step; try reflexivity.
  - intros r. apply same_required_refl.
  - rewrite app_nil_r. reflexivity.
Qed.

Lemma step_calls (w : LedgerBcoin.World) (evs : list LedgerBTC.Event) :
  step w (LedgerBcoin.set_calls (LedgerBcoin.calls w ++ evs) w) evs.
Proof.
  split_step; try reflexivity. intros r. apply same_required_refl.
Qed.

Lemma on_spec {A} (li : nat) (m : M LedgerTXInput.t A) (w : LedgerBcoin.World)
    (Q : Outcome A -> LedgerTXInput.t -> Prop) :
  post m (LedgerBcoin.heap w li) Q ->
  post (LedgerBcoin.on li m) w (fun o w' =>
    exists d', Q o d' /\
      w' = LedgerBcoin.set_heap (LedgerBcoin.upd (LedgerBcoin.heap w) li d') w).
Proof.
  intros Hm o w' Hrun. unfold LedgerBcoin.on in Hrun.
  destruct (m (LedgerBcoin.heap w li)) as [o1 d'] eqn:E.
  injection Hrun as <- <-. exists d'. split; [exact (Hm _ _ E) | reflexivity].
Qed.

Lemma on_toKey_spec (li : nat) (w : LedgerBcoin.World) :
  post (LedgerBcoin.on li LedgerTXInput.toKey) w (fun o w' =>
    step w w' [] /\ LedgerBcoin.mtx w' = LedgerBcoin.mtx w /\
    forall k, o = Returned k -> keyOf (LedgerBcoin.heap w li) = inr k).
Proof.
  eapply post_mono; [apply on_spec, toKey_spec|].
  intros o w' (d' & [Hd Hk] & ->). split; [|split].
  - apply step_heap, Hd.
  - reflexivity.
  - exact Hk.
Qed.

Lemma on_getRing_spec (li : nat) (net : Network) (w : LedgerBcoin.World) :
  post (LedgerBcoin.on li (LedgerTXInput.getRing net)) w (fun o w' =>
    step w w' [] /\ LedgerBcoin.mtx w' = LedgerBcoin.mtx w).
Proof.
  eapply post_mono; [apply on_spec, getRing_spec|].
  intros o w' (d' & Hd & ->). split; [apply step_heap, Hd | reflexivity].
Qed.

Lemma on_getCoin_spec (li : nat) (height : Z) (w : LedgerBcoin.World) :
  post (LedgerBcoin.on li (LedgerTXInput.getCoin height)) w (fun o w' =>
    step w w' [] /\ LedgerBcoin.mtx w' = LedgerBcoin.mtx w).
Proof.
  eapply post_mono; [apply on_spec, getCoin_spec|].
  intros o w' (d' & Hd & ->). split; [apply step_heap, Hd | reflexivity].
Qed.

Lemma on_set_publicKey_spec (li : nat) (v : option Buffer) (w : LedgerBcoin.World) :
  post (LedgerBcoin.on li (modify (LedgerTXInput.set_publicKey v))) w
    (fun o w' => step w w' [] /\ o = Returned tt).
Proof.
  eapply post_mono; [apply on_spec, set_publicKey_spec|].
  intros o w' (d' & [Hd Ho] & ->). split; [apply step_heap, Hd | exact Ho].
Qed.

(** A call into the driver appends one event, or none when there is no
    driver to call. *)
Lemma perform_spec {A} (c : LedgerBTC.Call)
    (answer : LedgerBTC.t -> list LedgerBTC.Event -> Exn + A)
    (rep : A -> LedgerBTC.Reply) (w : LedgerBcoin.World) :
  post (LedgerBcoin.perform c answer rep) w (fun o w' =>
    LedgerBcoin.mtx w' = LedgerBcoin.mtx w /\
    ((step w w' [] /\ exists e, o = Threw e) \/
     (exists r, step w w' [LedgerBTC.mkEvent c r] /\
        match o with
        | Returned a => r = rep a
        | Threw e => r = LedgerBTC.Rejected e
        end))).
Proof.
  intros o w' Hrun. unfold LedgerBcoin.perform in Hrun.
  destruct (LedgerBcoin.ledger w) as [d|].
  - destruct (answer d (LedgerBcoin.calls w)) as [e|a];
      injection Hrun as <- <-; (split; [reflexivity|]); right;
      eexists; (split; [apply step_calls | reflexivity]).
  - injection Hrun as <- <-. split; [reflexivity|]. left.
    split; [apply step_refl | eauto].
Qed.

(** ** The phases of [_signTransaction] *)

Ltac silent :=
  exists []; split; [first [assumption | apply step_refl] | constructor].

Lemma getPublicKey_spec (path : option Options.PathVal) (addressFlags : Z)
    (w : LedgerBcoin.World) :
  post (LedgerBcoin.getPublicKey path addressFlags) w (fun o w' =>
    exists evs, step w w' evs /\ Forall (fun e => method e = GetPublicKey) evs).
Proof.
  unfold LedgerBcoin.getPublicKey. repeat mstep; try silent.
  all: unfold LedgerBcoin.ledger_getPublicKey.
  all: eapply post_mono; [apply perform_spec|].
  all: intros o w1 [_ [[Hs [e ->]] | [r [Hs Hr]]]]; cbv beta iota.
  all: try silent.
  all: destruct o as [data|e]; [|eexists; split; [exact Hs | repeat constructor]].
  all: repeat mstep; eexists; (split; [exact Hs | repeat constructor]).
Qed.

Lemma updatePublicKeys_spec (ledgerInputs : list nat) (w : LedgerBcoin.World) :
  post (LedgerBcoin.updatePublicKeys ledgerInputs) w (fun o w' =>
    exists evs, step w w' evs /\ Forall (fun e => method e = GetPublicKey) evs).
Proof.
  revert w. induction ledgerInputs as [|li rest IH]; intros w; cbn.
  - mstep. silent.
  - mstep. mstep. mstep.
    assert (Hcont : forall w1 evs1,
      step w w1 evs1 -> Forall (fun e => method e = GetPublicKey) evs1 ->
      post (LedgerBcoin.updatePublicKeys rest) w1 (fun o w' =>
        exists evs, step w w' evs /\
                    Forall (fun e => method e = GetPublicKey) evs)).
    { intros w1 evs1 Hs1 Hf1. eapply post_mono; [apply IH|].
      intros o w' (evs2 & Hs2 & Hf2). exists (evs1 ++ evs2).
      split; [eapply step_trans; eassumption | apply Forall_app; auto]. }
    mstep.
    + mstep. apply (Hcont w []); [apply step_refl | constructor].
    + mstep. muse getPublicKey_spec. intros o w1 (evs1 & Hs1 & Hf1).
      destruct o as [hd|e]; [|eauto].
      muse on_set_publicKey_spec. intros o w2 [Hs2 ->].
      apply (Hcont w2 evs1); [|exact Hf1].
      rewrite <- (app_nil_r evs1). eapply step_trans; eassumption.
Qed.

(** What is read off the required fields is the same before and after a
    step. *)
Lemma step_required (w w' : LedgerBcoin.World) (evs : list LedgerBTC.Event)
    (li : nat) :
  step w w' evs -> same_required (LedgerBcoin.heap w li) (LedgerBcoin.heap w' li).
Proof. intros (_&_&_&_&Hh&_). apply Hh. Qed.

Lemma step_wants (w w' : LedgerBcoin.World) (evs : list LedgerBTC.Event)
    (li : nat) :
  step w w' evs ->
  wantsTrustedInput (LedgerBcoin.heap w' li) =
  wantsTrustedInput (LedgerBcoin.heap w li).
Proof.
  intros Hs. destruct (step_required _ _ _ li Hs) as (_&_&_&Hw&Hr&_).
  unfold wantsTrustedInput. rewrite Hw, Hr. reflexivity.
Qed.

Lemma step_quals (w w' : LedgerBcoin.World) (evs : list LedgerBTC.Event)
    (lis : list nat) :
  step w w' evs ->
  filter (fun li => wantsTrustedInput (LedgerBcoin.heap w' li) = true) lis =
  filter (fun li => wantsTrustedInput (LedgerBcoin.heap w li) = true) lis.
Proof.
  intros Hs. induction lis as [|li rest IH]; [reflexivity|].
  rewrite !filter_cons, IH. rewrite (step_wants _ _ _ li Hs). reflexivity.
Qed.

Lemma step_trustedCall (w w' : LedgerBcoin.World) (evs : list LedgerBTC.Event)
    (li : nat) :
  step w w' evs -> trustedCall w' li = trustedCall w li.
Proof.
  intros Hs. destruct (step_required _ _ _ li Hs) as (_&Ht&Hi&_).
  unfold trustedCall. rewrite Ht, Hi. reflexivity.
Qed.

Lemma step_entryEvent (w w' : LedgerBcoin.World) (evs : list LedgerBTC.Event)
    (en : Entry) :
  step w w' evs -> entryEvent w' en = entryEvent w en.
Proof.
  intros Hs. destruct (step_required _ _ _ (fst (fst en)) Hs) as (_&Ht&Hi&_).
  unfold entryEvent. rewrite Ht, Hi. reflexivity.
Qed.

Lemma step_entriesOf (w w' : LedgerBcoin.World) (evs : list LedgerBTC.Event)
    (lis : list nat) (entries : list Entry) :
  step w w' evs -> entriesOf w' lis entries -> entriesOf w lis entries.
Proof.
  intros Hs [Hm Hk]. split.
  - rewrite Hm. eapply step_quals, Hs.
  - eapply Forall_impl; [exact Hk|]. intros en Hen. cbv beta in Hen.
    rewrite <- Hen. symmetry.
    destruct (step_required _ _ _ (fst (fst en)) Hs) as (_&_&_&_&_&_&Hkey).
    exact Hkey.
Qed.

Lemma step_anyWitness (w w' : LedgerBcoin.World) (evs : list LedgerBTC.Event)
    (lis : list nat) :
  step w w' evs -> anyWitness w' lis = anyWitness w lis.
Proof.
  intros Hs. unfold anyWitness. induction lis as [|li rest IH]; [reflexivity|].
  cbn. rewrite IH.
  destruct (step_required _ _ _ li Hs) as (_&_&_&Hw&_). rewrite Hw. reflexivity.
Qed.

Lemma collectTrustedInputs_spec (ledgerInputs : list nat)
    (trustedInputs : gmap string TrustedInput) (hasWitness : bool)
    (w : LedgerBcoin.World) :
  post (LedgerBcoin.collectTrustedInputs ledgerInputs trustedInputs hasWitness) w
    (fun o w' =>
       exists evs, step w w' evs /\
         Forall (fun e => method e = GetTrustedInput) evs /\
         map LedgerBTC.call evs `prefix_of`
           map (trustedCall w)
             (filter (fun li => wantsTrustedInput (LedgerBcoin.heap w li) = true)
                     ledgerInputs) /\
         forall tm hw, o = Returned (tm, hw) ->
           hw = hasWitness || anyWitness w ledgerInputs /\
           exists entries,
             entriesOf w ledgerInputs entries /\
             evs = map (entryEvent w) entries /\
             tm = foldl storeEntry trustedInputs entries).
Proof.
  revert trustedInputs hasWitness w.
  induction ledgerInputs as [|li rest IH]; intros tm0 hw0 w; cbn [LedgerBcoin.collectTrustedInputs].
  - mstep. exists []. split; [apply step_refl|]. split; [constructor|].
    split; [apply prefix_nil|]. intros tm hw [= <- <-].
    split; [cbn; rewrite orb_false_r; reflexivity|].
    exists []. repeat split; constructor.
  - mstep. mstep.
    destruct (LedgerTXInput.witness (LedgerBcoin.heap w li)) eqn:Ew.
    { (* a witness input *)
      eapply post_mono; [apply IH|]. intros o w' (evs & Hs & Hf & Hp & Hr).
      assert (Hq : wantsTrustedInput (LedgerBcoin.heap w li) = false)
        by (unfold wantsTrustedInput; rewrite Ew; reflexivity).
      exists evs. split; [exact Hs|]. split; [exact Hf|].
      rewrite filter_cons_False by (rewrite Hq; discriminate).
      split; [exact Hp|]. intros tm hw Ho.
      destruct (Hr tm hw Ho) as (-> & entries & [Hm Hk] & -> & ->).
      split; [cbn; rewrite Ew, !orb_true_r; reflexivity|].
      exists entries. repeat split; try assumption.
      rewrite filter_cons_False by (rewrite Hq; discriminate). exact Hm. }
    destruct (bool_decide (is_Some (LedgerTXInput.redeem (LedgerBcoin.heap w li))))
      eqn:Er.
    { (* an explicit redeem script *)
      eapply post_mono; [apply IH|]. intros o w' (evs & Hs & Hf & Hp & Hr).
      assert (Hq : wantsTrustedInput (LedgerBcoin.heap w li) = false)
        by (unfold wantsTrustedInput; rewrite Ew, Er; reflexivity).
      exists evs. split; [exact Hs|]. split; [exact Hf|].
      rewrite filter_cons_False by (rewrite Hq; discriminate).
      split; [exact Hp|]. intros tm hw Ho.
      destruct (Hr tm hw Ho) as (-> & entries & [Hm Hk] & -> & ->).
      split; [cbn; rewrite Ew; reflexivity|].
      exists entries. repeat split; try assumption.
      rewrite filter_cons_False by (rewrite Hq; discriminate). exact Hm. }
    assert (Hq : wantsTrustedInput (LedgerBcoin.heap w li) = true)
      by (unfold wantsTrustedInput; rewrite Ew, Er; reflexivity).
    rewrite filter_cons_True by exact Hq. cbn [map].
    muse on_toKey_spec. intros o w1 (Hs1 & _ & Hkey).
    destruct o as [pokey|e].
    2:{ exists []. split; [exact Hs1|]. split; [constructor|].
        split; [apply prefix_nil|]. discriminate. }
    specialize (Hkey pokey eq_refl).
    mstep. mstep. unfold LedgerBcoin.ledger_getTrustedInput.
    muse (@perform_spec TrustedInput). intros o w2 [_ Hp2].
    pose proof (step_trustedCall _ _ _ li Hs1) as Hcall.
    unfold trustedCall in Hcall. cbv zeta in Hcall.
    destruct Hp2 as [[Hs2 [e ->]] | [r [Hs2 Hr2]]].
    { exists []. split; [eapply step_silent; eassumption|].
      split; [constructor|]. split; [apply prefix_nil|]. discriminate. }
    rewrite Hcall in Hs2.
    pose proof (step_silent _ _ _ _ Hs1 Hs2) as Hs12.
    destruct o as [trustedInput|e].
    2:{ eexists. split; [exact Hs12|]. split; [repeat constructor|].
        split; [|discriminate]. cbn. apply prefix_cons, prefix_nil. }
    subst r.
    eapply post_mono; [apply IH|]. intros o w' (evs & Hs & Hf & Hp & Hr).
    eexists. split; [eapply step_trans; [exact Hs12 | exact Hs]|].
    split; [constructor; [reflexivity | exact Hf]|].
    split.
    { cbn. apply prefix_cons.
      rewrite (step_quals _ _ _ rest Hs12) in Hp.
      rewrite (map_ext (trustedCall w2) (trustedCall w)) in Hp
        by (intros a; eapply step_trustedCall, Hs12).
      exact Hp. }
    intros tm hw Ho.
    destruct (Hr tm hw Ho) as (-> & entries & Hen & -> & ->).
    split.
    { cbn. rewrite Ew. cbn. rewrite (step_anyWitness _ _ _ rest Hs12).
      reflexivity. }
    exists ((li, pokey, trustedInput) :: entries).
    apply (step_entriesOf _ _ _ _ _ Hs12) in Hen. destruct Hen as [Hm Hk].
    split; [split|split].
    + rewrite filter_cons_True by exact Hq. cbn. rewrite Hm. reflexivity.
    + constructor; [exact Hkey | exact Hk].
    + cbn. f_equal. apply map_ext. intros en. eapply step_entryEvent, Hs12.
    + reflexivity.
Qed.

(** ** Signing one input *)

Lemma scriptInput_spec (index : option nat) (coin : Coin) (ring : KeyRing)
    (w : LedgerBcoin.World) :
  post (LedgerBcoin.scriptInput index coin ring) w (fun _ w' => step w w' []).
Proof.
  intros o w' Hrun. unfold LedgerBcoin.scriptInput in Hrun.
  destruct (MTX_scriptInput (LedgerBcoin.mtx w) index coin ring) as [e|[b t]];
    injection Hrun as <- <-; [apply step_refl | apply step_mtx].
Qed.

Lemma inputAt_spec (index : option nat) (w : LedgerBcoin.World) :
  post (LedgerBcoin.inputAt index) w (fun o w' =>
    w' = w /\
    forall located, o = Returned located ->
      MTX.inputs (LedgerBcoin.mtx w) !! fst located = Some (snd located)).
Proof.
  unfold LedgerBcoin.inputAt. repeat mstep; (split; [reflexivity|]);
    intros located [= <-]. cbn. assumption.
Qed.

(** Chain the step [Hs] after the steps accumulated in [Hacc]. *)
Ltac advance Hacc Hs :=
  let H' := fresh "Hacc" in
  pose proof (step_trans _ _ _ _ _ Hacc Hs) as H';
  cbn [app] in H'; clear Hacc Hs; rename H' into Hacc.

(** Where a driver call is made, the history grows by that call, unless
    there is no driver and the call throws at once. *)
Lemma call_spec {A} (c : LedgerBTC.Call)
    (answer : LedgerBTC.t -> list LedgerBTC.Event -> Exn + A)
    (rep : A -> LedgerBTC.Reply) (w : LedgerBcoin.World) :
  post (LedgerBcoin.perform c answer rep) w (fun o w' =>
    LedgerBcoin.mtx w' = LedgerBcoin.mtx w /\
    exists evs, step w w' evs /\
      ((evs = [] /\ exists e, o = Threw e) \/
       exists r, evs = [LedgerBTC.mkEvent c r])).
Proof.
  eapply post_mono; [apply perform_spec|].
  intros o w' [Hm [[Hs He] | [r [Hs _]]]]; (split; [exact Hm|]); eauto 6.
Qed.

Lemma inputShape_extend (trustedInputs : gmap string TrustedInput)
    (isNew : bool) {A B} (o : Outcome A) (o' : Outcome B)
    (evs1 evs2 : list LedgerBTC.Event) :
  inputShape trustedInputs isNew o evs1 ->
  evs1 <> [] ->
  Forall (fun e => method e = HashOutputFinalize \/ method e = HashSign) evs2 ->
  inputShape trustedInputs isNew o' (evs1 ++ evs2).
Proof.
  destruct evs1 as [|e rest]; [congruence|].
  intros [Ho Hf] _ H2. split; [exact Ho|]. apply Forall_app. auto.
Qed.

(** The hashing pass of [signInput], by the variant of the input. *)
Lemma hashPass_spec (trustedInputs : gmap string TrustedInput) (isNew : bool)
    (tx : MTX.t) (key : string) (prev : Script) (witness : bool)
    (w : LedgerBcoin.World) :
  post (if negb witness then
          LedgerBcoin.ledger_hashTransactionStartNullify tx key prev
            trustedInputs isNew witness ;;;
          LedgerBcoin.ledger_hashOutputFinalize tx
        else LedgerBcoin.ledger_hashTransactionStartSegwit tx key prev) w
    (fun o w' =>
       LedgerBcoin.mtx w' = LedgerBcoin.mtx w /\
       exists evs, step w w' evs /\ inputShape trustedInputs isNew o evs /\
         (o = Returned tt -> evs <> [])).
Proof.
  destruct witness; cbn [negb].
  - unfold LedgerBcoin.ledger_hashTransactionStartSegwit.
    eapply post_mono; [apply call_spec|].
    intros o w' (Hm & evs & Hs & [[-> [e ->]] | [r ->]]);
      (split; [exact Hm|]); eexists; (split; [exact Hs|]); split;
      try discriminate; cbn; eauto.
  - unfold LedgerBcoin.ledger_hashTransactionStartNullify,
      LedgerBcoin.ledger_hashOutputFinalize.
    muse (@call_spec unit). intros o w1 (Hm1 & evs1 & Hs1 & Hev1).
    destruct o as [[]|e].
    2:{ split; [exact Hm1|]. eexists. split; [exact Hs1|]. split; [|discriminate].
        destruct Hev1 as [[-> _] | [r ->]]; cbn; eauto. }
    destruct Hev1 as [[_ [e [=]]] | [r ->]].
    eapply post_mono; [apply call_spec|].
    intros o w2 (Hm2 & evs2 & Hs2 & Hev2).
    split; [congruence|]. eexists. split; [eapply step_trans; eassumption|].
    split; [|discriminate].
    destruct Hev2 as [[-> _] | [r2 ->]]; cbn; repeat split; repeat constructor;
      cbn; auto.
Qed.

(** What [signInput] does after its hashing pass, up to the fold. *)
Lemma signTail_spec (ledgerInput : nat) (tx : MTX.t) (index : option nat)
    (c : LedgerBcoin.Classified) (ring : KeyRing) (w : LedgerBcoin.World) :
  post
    (d <- gets (fun w0 => LedgerBcoin.heap w0 ledgerInput) ;;
     sig <- LedgerBcoin.ledger_hashSign tx (LedgerTXInput.path d)
              (LedgerTXInput.type d) ;;
     located <- LedgerBcoin.inputAt index ;;
     stack <- lift (LedgerBcoin.toStack (LedgerBcoin.c_vector c) (snd located)) ;;
     ret (LedgerBcoin.mkPrepared (fst located) (snd located) c ring sig stack))
    w
    (fun o w' =>
       exists evs, step w w' evs /\
         Forall (fun e => method e = HashOutputFinalize \/ method e = HashSign) evs /\
         forall p, o = Returned p ->
           MTX.inputs (LedgerBcoin.mtx w') !! LedgerBcoin.p_index p =
             Some (LedgerBcoin.p_input p)).
Proof.
  mstep. mstep. unfold LedgerBcoin.ledger_hashSign.
  muse (@call_spec Buffer). intros o w1 (_ & evs & Hs & Hev).
  assert (Hf : Forall (fun e => method e = HashOutputFinalize \/ method e = HashSign) evs)
    by (destruct Hev as [[-> _] | [r ->]]; repeat constructor; cbn; auto).
  destruct o as [sig|e]; [|eexists; split; [exact Hs|]; split; [exact Hf|discriminate]].
  muse inputAt_spec. intros o w2 [-> Hin].
  destruct o as [located|e]; [|eexists; split; [exact Hs|]; split; [exact Hf|discriminate]].
  specialize (Hin located eq_refl).
  mstep. mstep; mstep; [|mstep]; eexists; (split; [exact Hs|]);
    (split; [exact Hf|]); [discriminate|].
  intros p [= <-]. cbn. exact Hin.
Qed.

Lemma hashAndSign_spec (ledgerInput : nat)
    (trustedInputs : gmap string TrustedInput) (index : option nat)
    (isNew : bool) (w : LedgerBcoin.World) :
  post (LedgerBcoin.hashAndSign ledgerInput trustedInputs index isNew) w
    (fun o w' =>
       exists evs, step w w' evs /\
         inputShape trustedInputs isNew o evs /\
         forall p, o = Returned p ->
           MTX.inputs (LedgerBcoin.mtx w') !! LedgerBcoin.p_index p =
             Some (LedgerBcoin.p_input p)).
Proof.
  unfold LedgerBcoin.hashAndSign.
  pose proof (step_refl w) as Hacc.
  assert (Hstop : forall e w',
    step w w' [] ->
    exists evs, step w w' evs /\
      inputShape trustedInputs isNew (@Threw LedgerBcoin.Prepared e) evs /\
      forall p, Threw e = Returned p ->
        MTX.inputs (LedgerBcoin.mtx w') !! LedgerBcoin.p_index p =
          Some (LedgerBcoin.p_input p)).
  { intros e w' Hs. exists []. split; [exact Hs|]. split; [cbn; eauto|discriminate]. }
  muse on_toKey_spec. intros o w1 (Hs & _ & _). advance Hacc Hs.
  destruct o as [inputKey|e]; [|apply Hstop, Hacc].
  mstep. mstep.
  muse on_getRing_spec. intros o w2 (Hs & _). advance Hacc Hs.
  destruct o as [ring|e]; [|apply Hstop, Hacc].
  muse on_getCoin_spec. intros o w3 (Hs & _). advance Hacc Hs.
  destruct o as [coin|e]; [|apply Hstop, Hacc].
  muse scriptInput_spec. intros o w4 Hs. advance Hacc Hs.
  destruct o as [templated|e]; [|apply Hstop, Hacc].
  mstep. mstep; mstep; [|apply Hstop, Hacc].
  muse inputAt_spec. intros o w5 [-> _].
  destruct o as [located|e]; [|apply Hstop, Hacc].
  mstep. mstep; mstep; [apply Hstop, Hacc|].
  mstep. mstep.
  muse hashPass_spec. intros o w6 (_ & evs1 & Hs1 & Hshape & Hne).
  destruct o as [[]|e].
  2:{ exists evs1. split; [eapply step_silent; eassumption|].
      split; [|discriminate]. destruct evs1; [cbn; eauto | exact Hshape]. }
  specialize (Hne eq_refl).
  eapply post_mono; [apply signTail_spec|].
  intros o w7 (evs2 & Hs2 & Hf2 & Hin).
  exists (evs1 ++ evs2).
  split; [eapply step_silent; [exact Hacc | eapply step_trans; eassumption]|].
  split; [eapply inputShape_extend; eassumption | exact Hin].
Qed.

Lemma foldSignature_spec (p : LedgerBcoin.Prepared) (w : LedgerBcoin.World) :
  post (LedgerBcoin.foldSignature p) w (fun _ w' => step w w' []).
Proof.
  unfold LedgerBcoin.foldSignature, LedgerBcoin.writeVector.
  repeat mstep; first [apply step_refl | apply step_mtx].
Qed.

Lemma signInput_spec (ledgerInput : nat)
    (trustedInputs : gmap string TrustedInput) (index : option nat)
    (isNew : bool) (w : LedgerBcoin.World) :
  post (LedgerBcoin.signInput ledgerInput trustedInputs index isNew) w
    (fun o w' =>
       exists evs, step w w' evs /\ inputShape trustedInputs isNew o evs).
Proof.
  unfold LedgerBcoin.signInput.
  muse hashAndSign_spec. intros o w1 (evs & Hs & Hshape & _).
  destruct o as [p|e].
  2:{ exists evs. split; [exact Hs|].
      destruct evs; [cbn; eauto | exact Hshape]. }
  eapply post_mono; [apply foldSignature_spec|]. intros o w2 Hs2.
  exists evs. split.
  - rewrite <- (app_nil_r evs). eapply step_trans; eassumption.
  - destruct evs as [|e rest]; [destruct Hshape as [e [=]] | exact Hshape].
Qed.

Lemma later_of_method (trustedInputs : gmap string TrustedInput)
    (e : LedgerBTC.Event) :
  method e = HashOutputFinalize \/ method e = HashSign ->
  laterInLoop trustedInputs e.
Proof.
  unfold method, laterInLoop. destruct (LedgerBTC.call e); intros [[=]|[=]]; exact I.
Qed.

Lemma later_of_opens (trustedInputs : gmap string TrustedInput)
    (e : LedgerBTC.Event) :
  opensInput trustedInputs false e -> laterInLoop trustedInputs e.
Proof.
  unfold opensInput, laterInLoop. destruct (LedgerBTC.call e); auto.
Qed.

Lemma loopShape_later (trustedInputs : gmap string TrustedInput)
    (evs : list LedgerBTC.Event) :
  loopShape trustedInputs false evs -> Forall (laterInLoop trustedInputs) evs.
Proof.
  destruct evs as [|e rest]; [constructor|].
  intros [Ho Hf]. constructor; [apply later_of_opens, Ho | exact Hf].
Qed.

Lemma loopShape_input (trustedInputs : gmap string TrustedInput)
    (newtx : bool) {A} (o : Outcome A) (evs : list LedgerBTC.Event) :
  inputShape trustedInputs newtx o evs -> loopShape trustedInputs newtx evs.
Proof.
  destruct evs as [|e rest]; [constructor|].
  intros [Ho Hf]. split; [exact Ho|].
  eapply Forall_impl; [exact Hf | apply later_of_method].
Qed.

Lemma loopShape_app (trustedInputs : gmap string TrustedInput)
    (newtx : bool) {A} (a : A) (evs1 evs2 : list LedgerBTC.Event) :
  inputShape trustedInputs newtx (Returned a) evs1 ->
  loopShape trustedInputs false evs2 ->
  loopShape trustedInputs newtx (evs1 ++ evs2).
Proof.
  destruct evs1 as [|e rest]; [intros [e [=]]|].
  intros [Ho Hf] H2. split; [exact Ho|]. apply Forall_app. split.
  - eapply Forall_impl; [exact Hf | apply later_of_method].
  - apply loopShape_later, H2.
Qed.

Lemma signInputs_spec (ledgerInputs : list nat)
    (trustedInputs : gmap string TrustedInput) (txIndexByKey : gmap string nat)
    (newtx : bool) (w : LedgerBcoin.World) :
  post (LedgerBcoin.signInputs ledgerInputs trustedInputs txIndexByKey newtx) w
    (fun o w' =>
       exists evs, step w w' evs /\ loopShape trustedInputs newtx evs).
Proof.
  revert newtx w. induction ledgerInputs as [|li rest IH]; intros newtx w;
    cbn [LedgerBcoin.signInputs].
  - mstep. exists []. split; [apply step_refl | constructor].
  - muse on_toKey_spec. intros o w1 (Hs1 & _ & _).
    destruct o as [pokey|e]; [|exists []; split; [exact Hs1 | constructor]].
    muse signInput_spec. intros o w2 (evs1 & Hs2 & Hshape).
    pose proof (step_silent _ _ _ _ Hs1 Hs2) as Hs12.
    destruct o as [b|e];
      [|exists evs1; split; [exact Hs12 | eapply loopShape_input, Hshape]].
    eapply post_mono; [apply IH|]. intros o w3 (evs2 & Hs3 & Hloop).
    exists (evs1 ++ evs2). split; [eapply step_trans; eassumption|].
    eapply loopShape_app; eassumption.
Qed.

(** ** The whole run *)

Lemma priming_spec (t : MTX.t) (hasWitness : bool) (w : LedgerBcoin.World) :
  post (if hasWitness then
          LedgerBcoin.ledger_hashTransactionStart t ∅ true true ;;;
          LedgerBcoin.ledger_hashOutputFinalize t ;;;
          ret false
        else ret true) w
    (fun o w' =>
       exists evs, step w w' evs /\
         match o with
         | Returned newtx =>
             newtx = negb hasWitness /\
             evs = (if hasWitness then primingPass t else [])
         | Threw _ => hasWitness = true /\ primingAttempt evs
         end).
Proof.
  destruct hasWitness.
  - unfold LedgerBcoin.ledger_hashTransactionStart,
      LedgerBcoin.ledger_hashOutputFinalize.
    muse (@perform_spec unit). intros o w1 [_ [[Hs1 [e ->]] | [r1 [Hs1 Hr1]]]].
    { exists []. split; [exact Hs1|]. split; [reflexivity | exact I]. }
    destruct o as [[]|e].
    2:{ eexists. split; [exact Hs1|]. split; reflexivity. }
    subst r1.
    muse (@perform_spec unit). intros o w2 [_ [[Hs2 [e ->]] | [r2 [Hs2 Hr2]]]].
    { eexists. split; [eapply step_trans; eassumption|]. split; reflexivity. }
    pose proof (step_trans _ _ _ _ _ Hs1 Hs2) as Hs12. cbn [app] in Hs12.
    destruct o as [[]|e].
    2:{ eexists. split; [exact Hs12|]. split; [reflexivity|]. cbn. auto. }
    subst r2. mstep. eexists. split; [exact Hs12|]. split; reflexivity.
  - mstep. exists []. split; [apply step_refl|]. split; reflexivity.
Qed.

Lemma _signTransaction_not_MTX (ledgerInputs : list nat) (w : LedgerBcoin.World) :
  LedgerBcoin._signTransaction LedgerBcoin.NotMTX ledgerInputs w =
    (Threw (AssertionError "Cannot use non-MTX tx for signing"), w).
Proof. reflexivity. Qed.

(** The events of a run of [_signTransaction] on an [MTX], with what the
    run leaves in the instance. *)
Lemma _signTransaction_shape (ledgerInputs : list nat) (w : LedgerBcoin.World) :
  post (LedgerBcoin._signTransaction LedgerBcoin.TheMTX ledgerInputs) w
    (fun o w' =>
       LedgerBcoin.txlock w' = LedgerBcoin.txlock w /\
       LedgerBcoin.signingTX w' =
         match o with Returned _ => false | Threw _ => true end /\
       exists evs,
         LedgerBcoin.calls w' = LedgerBcoin.calls w ++ evs /\
         RunShape w ledgerInputs o evs).
Proof.
  unfold LedgerBcoin._signTransaction. cbn [LedgerBcoin.isMTX assert].
  mstep. mstep. mstep. mstep.
  set (w0 := LedgerBcoin.set_signingTX true w).
  assert (Hout : forall (o : Outcome LedgerBcoin.TxArg) w' evs,
    step w0 w' evs -> (exists e, o = Threw e) -> RunShape w ledgerInputs o evs ->
    LedgerBcoin.txlock w' = LedgerBcoin.txlock w /\
    LedgerBcoin.signingTX w' =
      match o with Returned _ => false | Threw _ => true end /\
    exists evs0,
      LedgerBcoin.calls w' = LedgerBcoin.calls w ++ evs0 /\
      RunShape w ledgerInputs o evs0).
  { intros o w' evs (_&_&Hsg&Hl&_&Hc) [e ->] Hshape.
    split; [exact Hl|]. split; [exact Hsg|]. exists evs. split; assumption. }
  muse updatePublicKeys_spec. intros o w1 (keys & Hs1 & Hkeys).
  destruct o as [[]|e].
  2:{ eapply (Hout (Threw e)); [exact Hs1 | eauto | constructor; exact Hkeys]. }
  muse collectTrustedInputs_spec.
  intros o w2 (trusted & Hs2 & Htrusted & Hprefix & Hdone).
  pose proof (step_trans _ _ _ _ _ Hs1 Hs2) as Hs12.
  rewrite (step_quals _ _ _ ledgerInputs Hs1) in Hprefix.
  rewrite (map_ext (trustedCall w1) (trustedCall w0)) in Hprefix
    by (intros a; eapply step_trustedCall, Hs1).
  change (trustedCall w0) with (trustedCall w) in Hprefix.
  change (LedgerBcoin.heap w0) with (LedgerBcoin.heap w) in Hprefix.
  destruct o as [[trustedInputs hasWitness]|e].
  2:{ eapply (Hout (Threw e)); [exact Hs12 | eauto |].
      apply EndedInTrusted; assumption. }
  destruct (Hdone _ _ eq_refl) as (Hhw & entries & Hen & -> & ->).
  clear Hdone Hprefix Htrusted.
  apply (step_entriesOf _ _ _ _ _ Hs1) in Hen.
  rewrite (map_ext (entryEvent w1) (entryEvent w0)) in Hs12
    by (intros a; eapply step_entryEvent, Hs1).
  rewrite (step_anyWitness _ _ _ ledgerInputs Hs1) in Hhw. cbn [orb] in Hhw.
  change (entryEvent w0) with (entryEvent w) in Hs12.
  change (entriesOf w0) with (entriesOf w) in Hen.
  change (anyWitness w0) with (anyWitness w) in Hhw.
  mstep. mstep.
  muse priming_spec. intros o w3 (priming & Hs3 & Hpr).
  pose proof (step_trans _ _ _ _ _ Hs12 Hs3) as Hs123.
  rewrite <- app_assoc in Hs123.
  destruct o as [newtx|e].
  2:{ destruct Hpr as [-> Hatt].
      eapply (Hout (Threw e)); [exact Hs123 | eauto |].
      apply EndedInPriming; try assumption. symmetry. exact Hhw. }
  destruct Hpr as [-> ->].
  muse signInputs_spec. intros o w4 (loop & Hs4 & Hloop).
  pose proof (step_trans _ _ _ _ _ Hs123 Hs4) as Hs1234.
  rewrite <- !app_assoc in Hs1234.
  assert (Hshape : forall o : Outcome LedgerBcoin.TxArg,
    RunShape w ledgerInputs o
      (keys ++ map (entryEvent w) entries ++
       (if hasWitness then primingPass (LedgerBcoin.mtx w2) else []) ++ loop)).
  { intros o'. rewrite Hhw. apply ReachedLoop; try assumption.
    rewrite <- Hhw. exact Hloop. }
  destruct o as [[]|e].
  2:{ eapply (Hout (Threw e)); [exact Hs1234 | eauto | apply Hshape]. }
  mstep. mstep. mstep.
  destruct Hs1234 as (_&_&_&Hl&_&Hc). cbn.
  split; [exact Hl|]. split; [reflexivity|].
  eexists. split; [exact Hc | apply Hshape].
Qed.

(** The shape of a run depends on the world through its descriptors only. *)
Lemma RunShape_heap (w w' : LedgerBcoin.World) (lis : list nat)
    (o : Outcome LedgerBcoin.TxArg) (evs : list LedgerBTC.Event) :
  LedgerBcoin.heap w' = LedgerBcoin.heap w ->
  RunShape w' lis o evs -> RunShape w lis o evs.
Proof.
  intros Hh Hr.
  assert (He : entryEvent w' = entryEvent w)
    by (unfold entryEvent; rewrite Hh; reflexivity).
  assert (Hen : entriesOf w' = entriesOf w)
    by (unfold entriesOf; rewrite Hh; reflexivity).
  assert (Ha : anyWitness w' = anyWitness w)
    by (unfold anyWitness; rewrite Hh; reflexivity).
  assert (Ht : trustedCall w' = trustedCall w)
    by (unfold trustedCall; rewrite Hh; reflexivity).
  destruct Hr; rewrite ?He, ?Hen, ?Ha, ?Ht, ?Hh in *.
  - apply EndedInKeys; assumption.
  - apply EndedInTrusted; assumption.
  - apply EndedInPriming; assumption.
  - apply ReachedLoop; assumption.
Qed.

(** A call that got the lock: the lock is free again afterwards, the flag
    tells whether the run returned, and the events have the shape of a
    run. *)
Lemma signTransaction_run (ledgerInputs : list nat) (w w' : LedgerBcoin.World)
    (o : Outcome LedgerBcoin.TxArg) :
  LedgerBcoin.signTransaction LedgerBcoin.TheMTX ledgerInputs w = Some (o, w') ->
  LedgerBcoin.signingTX w' =
    match o with Returned _ => false | Threw _ => true end /\
  exists evs,
    LedgerBcoin.calls w' = LedgerBcoin.calls w ++ evs /\
    RunShape w ledgerInputs o evs.
Proof.
  unfold LedgerBcoin.signTransaction.
  destruct (Lock.lock (LedgerBcoin.txlock w)) as [held|]; [|discriminate].
  destruct (LedgerBcoin._signTransaction LedgerBcoin.TheMTX ledgerInputs
              (LedgerBcoin.set_txlock held w)) as [o1 w1] eqn:E.
  intros [= <- <-].
  destruct (_signTransaction_shape _ _ _ _ E) as (_ & Hsg & evs & Hc & Hr).
  split; [exact Hsg|]. exists evs. split; [exact Hc|].
  eapply RunShape_heap; [|exact Hr]. reflexivity.
Qed.

(** ** The lock and the flag *)

(** C4: from a free lock, [signTransaction] takes the lock and settles, by
    returning or by throwing; either way the lock is free afterwards, and a
    later call takes it in turn. *)
Theorem signTransaction_releases_lock (tx : LedgerBcoin.TxArg)
    (ledgerInputs : list nat) (w : LedgerBcoin.World) :
  Lock.busy (LedgerBcoin.txlock w) = false ->
  exists o w',
    LedgerBcoin.signTransaction tx ledgerInputs w = Some (o, w') /\
    Lock.busy (LedgerBcoin.txlock w') = false /\
    forall tx2 ledgerInputs2,
      exists o2 w2,
        LedgerBcoin.signTransaction tx2 ledgerInputs2 w' = Some (o2, w2).
Proof.
  intros Hfree.
  assert (Hsettles : forall tx0 lis0 w0,
    Lock.busy (LedgerBcoin.txlock w0) = false ->
    exists o w',
      LedgerBcoin.signTransaction tx0 lis0 w0 = Some (o, w') /\
      Lock.busy (LedgerBcoin.txlock w') = false).
  { intros tx0 lis0 w0 Hw0. unfold LedgerBcoin.signTransaction, Lock.lock.
    rewrite Hw0.
    destruct (LedgerBcoin._signTransaction tx0 lis0 _) as [o1 w1].
    exists o1. eexists. split; reflexivity. }
  destruct (Hsettles tx ledgerInputs w Hfree) as (o & w' & Hrun & Hfree').
  exists o, w'. split; [exact Hrun|]. split; [exact Hfree'|].
  intros tx2 lis2.
  destruct (Hsettles tx2 lis2 w' Hfree') as (o2 & w2 & Hrun2 & _). eauto.
Qed.

(** C9: when the body of [signTransaction] throws on an [MTX], the call
    leaves [signingTX] set; the flag is back to false only when the body
    returned. *)
Theorem signingTX_stays_set_on_failure (tx : LedgerBcoin.TxArg)
    (ledgerInputs : list nat) (w w' : LedgerBcoin.World)
    (o : Outcome LedgerBcoin.TxArg) :
  LedgerBcoin.isMTX tx = true ->
  LedgerBcoin.signTransaction tx ledgerInputs w = Some (o, w') ->
  Lock.busy (LedgerBcoin.txlock w') = false /\
  LedgerBcoin.signingTX w' =
    match o with Returned _ => false | Threw _ => true end.
Proof.
  destruct tx; [intros _|discriminate]. intros Hrun.
  split; [|apply (signTransaction_run _ _ _ _ Hrun)].
  unfold LedgerBcoin.signTransaction in Hrun.
  destruct (Lock.lock _); [|discriminate].
  destruct (LedgerBcoin._signTransaction _ _ _). injection Hrun as <- <-.
  reflexivity.
Qed.

(** ** What a run calls, and in which order *)

Lemma callsTo_app (m : Method) (l1 l2 : list LedgerBTC.Event) :
  callsTo m (l1 ++ l2) = callsTo m l1 ++ callsTo m l2.
Proof. apply filter_app. Qed.

Lemma callsTo_none (m : Method) (l : list LedgerBTC.Event) :
  Forall (fun e => method e <> m) l -> callsTo m l = [].
Proof.
  induction 1 as [|e l He _ IH]; [reflexivity|].
  unfold callsTo in *. rewrite filter_cons_False by exact He. exact IH.
Qed.

Lemma callsTo_all (m : Method) (l : list LedgerBTC.Event) :
  Forall (fun e => method e = m) l -> callsTo m l = l.
Proof.
  induction 1 as [|e l He _ IH]; [reflexivity|].
  unfold callsTo in *. rewrite filter_cons_True by exact He. f_equal. exact IH.
Qed.

Lemma callsTo_other (m m' : Method) (l : list LedgerBTC.Event) :
  m' <> m -> Forall (fun e => method e = m') l -> callsTo m l = [].
Proof.
  intros Hne Hl. apply callsTo_none. eapply Forall_impl; [exact Hl|].
  intros e He. cbv beta in He. congruence.
Qed.

Lemma entryEvents_method (w : LedgerBcoin.World) (entries : list Entry) :
  Forall (fun e => method e = GetTrustedInput) (map (entryEvent w) entries).
Proof. apply Forall_map, Forall_forall. intros en _. reflexivity. Qed.

Lemma entryEvents_calls (w : LedgerBcoin.World) (entries : list Entry) :
  map LedgerBTC.call (map (entryEvent w) entries) =
  map (trustedCall w) (map (fun en : Entry => fst (fst en)) entries).
Proof. rewrite !map_map. reflexivity. Qed.

Lemma opens_method (trustedInputs : gmap string TrustedInput) (b : bool)
    (e : LedgerBTC.Event) :
  opensInput trustedInputs b e ->
  method e = HashTransactionStartNullify \/
  method e = HashTransactionStartSegwit.
Proof.
  unfold opensInput, method. destruct (LedgerBTC.call e); intros Ho;
    try contradiction; auto.
Qed.

Lemma later_method (trustedInputs : gmap string TrustedInput)
    (e : LedgerBTC.Event) :
  laterInLoop trustedInputs e ->
  method e = HashTransactionStartNullify \/ method e = HashOutputFinalize \/
  method e = HashTransactionStartSegwit \/ method e = HashSign.
Proof.
  unfold laterInLoop, method. destruct (LedgerBTC.call e); intros Ho;
    try contradiction; auto.
Qed.

Lemma loopShape_methods (trustedInputs : gmap string TrustedInput)
    (newtx : bool) (loop : list LedgerBTC.Event) :
  loopShape trustedInputs newtx loop ->
  Forall (fun e =>
            method e = HashTransactionStartNullify \/
            method e = HashOutputFinalize \/
            method e = HashTransactionStartSegwit \/ method e = HashSign) loop.
Proof.
  destruct loop as [|e rest]; [constructor|]. intros [Ho Hf]. constructor.
  - destruct (opens_method _ _ _ Ho); auto.
  - eapply Forall_impl; [exact Hf | apply later_method].
Qed.

Lemma loopShape_trusted (trustedInputs : gmap string TrustedInput)
    (newtx : bool) (loop : list LedgerBTC.Event) :
  loopShape trustedInputs newtx loop ->
  Forall (fun e => forall tm, nullifyTrusted e = Some tm -> tm = trustedInputs)
         loop.
Proof.
  destruct loop as [|e rest]; [constructor|]. intros [Ho Hf]. constructor.
  - unfold opensInput in Ho. unfold nullifyTrusted.
    destruct (LedgerBTC.call e); try discriminate.
    intros tm [= <-]. apply Ho.
  - eapply Forall_impl; [exact Hf|]. intros e' Hl. unfold laterInLoop in Hl.
    unfold nullifyTrusted. destruct (LedgerBTC.call e'); try discriminate.
    intros tm [= <-]. apply Hl.
Qed.

Lemma no_nullifyTrusted (m : Method) (l : list LedgerBTC.Event) :
  m <> HashTransactionStartNullify ->
  Forall (fun e => method e = m) l ->
  Forall (fun e => forall tm (trustedInputs : gmap string TrustedInput),
            nullifyTrusted e = Some tm -> tm = trustedInputs) l.
Proof.
  intros Hm Hl. eapply Forall_impl; [exact Hl|]. intros e He tm ti.
  cbv beta in He. unfold method in He. unfold nullifyTrusted.
  destruct (LedgerBTC.call e); try discriminate. congruence.
Qed.

Lemma methods_not_start (l : list LedgerBTC.Event) :
  Forall (fun e =>
            method e = HashTransactionStartNullify \/
            method e = HashOutputFinalize \/
            method e = HashTransactionStartSegwit \/ method e = HashSign) l ->
  Forall (fun e => method e <> HashTransactionStart) l.
Proof.
  intros Hl. eapply Forall_impl; [exact Hl|].
  intros e [He|[He|[He|He]]]; rewrite He; discriminate.
Qed.

Lemma primingAttempt_calls (priming : list LedgerBTC.Event) :
  primingAttempt priming ->
  (length (callsTo HashTransactionStart priming) <= 1)%nat /\
  callsTo GetTrustedInput priming = [] /\
  Forall (fun e => method e = HashTransactionStart \/
                   method e = HashOutputFinalize) priming.
Proof.
  destruct priming as [|a [|b [|c rest]]]; cbn [primingAttempt].
  - intros _. split; [cbn; lia|]. split; [reflexivity | constructor].
  - intros Ha. split; [|split].
    + unfold callsTo. rewrite filter_cons_True by exact Ha. cbn. lia.
    + unfold callsTo.
      rewrite filter_cons_False by (rewrite Ha; discriminate). reflexivity.
    + repeat constructor; auto.
  - intros [Ha Hb]. split; [|split].
    + unfold callsTo. rewrite filter_cons_True by exact Ha.
      rewrite filter_cons_False by (rewrite Hb; discriminate). cbn. lia.
    + unfold callsTo.
      rewrite filter_cons_False by (rewrite Ha; discriminate).
      rewrite filter_cons_False by (rewrite Hb; discriminate). reflexivity.
    + constructor; [auto | constructor; [auto | constructor]].
  - contradiction.
Qed.

Lemma no_loop_calls (l : list LedgerBTC.Event) :
  Forall (fun e => method e = GetPublicKey \/ method e = GetTrustedInput \/
                   method e = HashTransactionStart \/
                   method e = HashOutputFinalize) l ->
  ~ Exists (fun e => method e = HashTransactionStartNullify \/
                     method e = HashTransactionStartSegwit) l.
Proof.
  intros Hl Hex. apply Exists_exists in Hex. destruct Hex as (e & Hin & He).
  rewrite Forall_forall in Hl.
  destruct (Hl e Hin) as [Hm|[Hm|[Hm|Hm]]]; destruct He as [He|He]; congruence.
Qed.

(** C5: a run makes at most one [hashTransactionStart] call and none when
    no descriptor has [witness] set; with such a descriptor, a run that
    returns, or that got as far as opening the signing of an input, is
    public-key and trusted-input calls, then one priming pass
    ([hashTransactionStart] and [hashOutputFinalize], both resolved), then
    the calls of the per-input loop. *)
Theorem priming_pass_once (ledgerInputs : list nat)
    (w w' : LedgerBcoin.World) (o : Outcome LedgerBcoin.TxArg) :
  LedgerBcoin.signTransaction LedgerBcoin.TheMTX ledgerInputs w = Some (o, w') ->
  exists evs,
    LedgerBcoin.calls w' = LedgerBcoin.calls w ++ evs /\
    (length (callsTo HashTransactionStart evs) <= 1)%nat /\
    (anyWitness w ledgerInputs = false ->
       callsTo HashTransactionStart evs = []) /\
    (anyWitness w ledgerInputs = true ->
     (exists t, o = Returned t) \/
     Exists (fun e => method e = HashTransactionStartNullify \/
                      method e = HashTransactionStartSegwit) evs ->
       exists before tx loop,
         evs = before ++ primingPass tx ++ loop /\
         Forall (fun e => method e = GetPublicKey \/
                          method e = GetTrustedInput) before /\
         Forall (fun e =>
                   method e = HashTransactionStartNullify \/
                   method e = HashOutputFinalize \/
                   method e = HashTransactionStartSegwit \/
                   method e = HashSign) loop).
Proof.
  intros Hrun. destruct (signTransaction_run _ _ _ _ Hrun) as (_ & evs & Hc & Hr).
  exists evs. split; [exact Hc|]. clear Hrun Hc.
  destruct Hr as [e keys Hk | e keys trusted Hk Ht _
                 | e keys entries priming Hk Hen Hw Hp
                 | o keys entries t loop Hk Hen Hl].
  - assert (Hno : ~ Exists (fun e => method e = HashTransactionStartNullify \/
                               method e = HashTransactionStartSegwit) keys).
    { apply no_loop_calls. eapply Forall_impl; [exact Hk|]. auto. }
    rewrite (callsTo_other _ GetPublicKey) by (discriminate || assumption).
    split; [cbn; apply Nat.le_0_1|]. split; [reflexivity|].
    intros _ [[t [=]]|Hex]. contradiction.
  - assert (Hno : ~ Exists (fun e => method e = HashTransactionStartNullify \/
                               method e = HashTransactionStartSegwit)
                      (keys ++ trusted)).
    { apply no_loop_calls, Forall_app.
      split; (eapply Forall_impl; [eassumption|]); auto. }
    rewrite callsTo_app, (callsTo_other _ GetPublicKey keys),
      (callsTo_other _ GetTrustedInput trusted)
      by (discriminate || assumption).
    split; [cbn; apply Nat.le_0_1|]. split; [reflexivity|].
    intros _ [[t [=]]|Hex]. contradiction.
  - destruct (primingAttempt_calls _ Hp) as (Hle & _ & Hpm).
    assert (Hno : ~ Exists (fun e => method e = HashTransactionStartNullify \/
                               method e = HashTransactionStartSegwit)
                      (keys ++ map (entryEvent w) entries ++ priming)).
    { apply no_loop_calls. repeat (apply Forall_app; split).
      - eapply Forall_impl; [exact Hk|]. auto.
      - eapply Forall_impl; [apply entryEvents_method|]. auto.
      - eapply Forall_impl; [exact Hpm|]. intros ev [He|He]; auto. }
    rewrite !callsTo_app, (callsTo_other _ GetPublicKey keys),
      (callsTo_other _ GetTrustedInput (map _ entries))
      by (discriminate || assumption || apply entryEvents_method).
    cbn [app]. split; [exact Hle|]. split; [congruence|].
    intros _ [[t [=]]|Hex]. contradiction.
  - pose proof (loopShape_methods _ _ _ Hl) as Hm.
    rewrite !callsTo_app, (callsTo_other _ GetPublicKey keys),
      (callsTo_other _ GetTrustedInput (map _ entries)),
      (callsTo_none _ loop)
      by (discriminate || assumption || apply entryEvents_method
          || apply methods_not_start, Hm).
    cbn [app]. rewrite app_nil_r.
    destruct (anyWitness w ledgerInputs) eqn:Ew.
    + split; [cbn; apply le_n|]. split; [discriminate|]. intros _ _.
      exists (keys ++ map (entryEvent w) entries), t, loop.
      split; [rewrite <- app_assoc; reflexivity|]. split; [|exact Hm].
      apply Forall_app. split.
      * eapply Forall_impl; [exact Hk|]. auto.
      * eapply Forall_impl; [apply entryEvents_method|]. auto.
    + split; [cbn; apply Nat.le_0_1|]. split; [reflexivity | discriminate].
Qed.

Lemma no_hashStart_events (l : list LedgerBTC.Event) :
  Forall (fun e => method e = GetPublicKey \/ method e = GetTrustedInput) l ->
  ~ Exists (fun e => isHashStart e = true) l.
Proof.
  intros Hl Hex. apply Exists_exists in Hex. destruct Hex as (e & Hin & He).
  rewrite Forall_forall in Hl. unfold isHashStart in He.
  destruct (Hl e Hin) as [Hm|Hm]; rewrite Hm in He; discriminate.
Qed.

(** C6: the [getTrustedInput] calls of a run are made, in order and once
    each, for descriptors without [witness] and without redeem script, and
    for no other; when the run returns, or got as far as starting a hashing
    pass, there is one call for every such descriptor, and the map handed to
    every [hashTransactionStartNullify] holds each token under the key of
    its descriptor. *)
Theorem trusted_input_once_per_descriptor (ledgerInputs : list nat)
    (w w' : LedgerBcoin.World) (o : Outcome LedgerBcoin.TxArg) :
  LedgerBcoin.signTransaction LedgerBcoin.TheMTX ledgerInputs w = Some (o, w') ->
  exists evs,
    LedgerBcoin.calls w' = LedgerBcoin.calls w ++ evs /\
    map LedgerBTC.call (callsTo GetTrustedInput evs) `prefix_of`
      map (trustedCall w)
        (filter (fun li => wantsTrustedInput (LedgerBcoin.heap w li) = true)
                ledgerInputs) /\
    ((exists t, o = Returned t) \/
     Exists (fun e => isHashStart e = true) evs ->
      exists entries,
        entriesOf w ledgerInputs entries /\
        callsTo GetTrustedInput evs = map (entryEvent w) entries /\
        Forall (fun e => forall tm, nullifyTrusted e = Some tm ->
                           tm = foldl storeEntry ∅ entries) evs).
Proof.
  intros Hrun. destruct (signTransaction_run _ _ _ _ Hrun) as (_ & evs & Hc & Hr).
  exists evs. split; [exact Hc|]. clear Hrun Hc.
  destruct Hr as [e keys Hk | e keys trusted Hk Ht Hp
                 | e keys entries priming Hk Hen Hw Hp
                 | o keys entries t loop Hk Hen Hl].
  - assert (Hno : ~ Exists (fun e => isHashStart e = true) keys).
    { apply no_hashStart_events. eapply Forall_impl; [exact Hk|]. auto. }
    rewrite (callsTo_other _ GetPublicKey) by (discriminate || assumption).
    split; [apply prefix_nil|]. intros [[t [=]]|Hex]. contradiction.
  - assert (Hno : ~ Exists (fun e => isHashStart e = true) (keys ++ trusted)).
    { apply no_hashStart_events, Forall_app.
      split; (eapply Forall_impl; [eassumption|]); auto. }
    rewrite callsTo_app, (callsTo_other _ GetPublicKey keys),
      (callsTo_all _ trusted) by (discriminate || assumption).
    split; [exact Hp|]. intros [[t [=]]|Hex]. contradiction.
  - destruct (primingAttempt_calls _ Hp) as (_ & Hnone & Hpm).
    rewrite !callsTo_app, (callsTo_other _ GetPublicKey keys),
      (callsTo_all _ (map _ entries)), Hnone
      by (discriminate || assumption || apply entryEvents_method).
    cbn [app]. rewrite app_nil_r. split.
    + rewrite entryEvents_calls. destruct Hen as [-> _]. reflexivity.
    + intros _. exists entries. split; [exact Hen|]. split; [reflexivity|].
      repeat (apply Forall_app; split).
      * eapply Forall_impl;
          [apply (no_nullifyTrusted GetPublicKey); [discriminate | exact Hk]|].
        intros ev Hev tm. apply Hev.
      * eapply Forall_impl;
          [apply (no_nullifyTrusted GetTrustedInput);
           [discriminate | apply entryEvents_method]|].
        intros ev Hev tm. apply Hev.
      * eapply Forall_impl; [exact Hpm|]. intros ev Hev tm.
        unfold method in Hev. unfold nullifyTrusted.
        destruct (LedgerBTC.call ev); try discriminate.
        destruct Hev; discriminate.
  - assert (Hpr : callsTo GetTrustedInput
                    (if anyWitness w ledgerInputs then primingPass t else []) = [])
      by (destruct (anyWitness w ledgerInputs); reflexivity).
    pose proof (loopShape_methods _ _ _ Hl) as Hm.
    rewrite !callsTo_app, (callsTo_other _ GetPublicKey keys),
      (callsTo_all _ (map _ entries)), Hpr, (callsTo_none _ loop)
      by (discriminate || assumption || apply entryEvents_method
          || (eapply Forall_impl; [exact Hm|];
              intros ev [He|[He|[He|He]]]; rewrite He; discriminate)).
    cbn [app]. rewrite app_nil_r. split.
    + rewrite entryEvents_calls. destruct Hen as [-> _]. reflexivity.
    + intros _. exists entries. split; [exact Hen|]. split; [reflexivity|].
      repeat (apply Forall_app; split).
      * eapply Forall_impl;
          [apply (no_nullifyTrusted GetPublicKey); [discriminate | exact Hk]|].
        intros ev Hev tm. apply Hev.
      * eapply Forall_impl;
          [apply (no_nullifyTrusted GetTrustedInput);
           [discriminate | apply entryEvents_method]|].
        intros ev Hev tm. apply Hev.
      * destruct (anyWitness w ledgerInputs); repeat constructor;
          intros tm [=].
      * apply loopShape_trusted in Hl. exact Hl.
Qed.

(** ** The [isNew] flag of the nullify passes *)

Lemma split_before (P : LedgerBTC.Event -> Prop)
    (l1 l2 before after : list LedgerBTC.Event) (e : LedgerBTC.Event) :
  l1 ++ l2 = before ++ e :: after ->
  Forall (fun x => ~ P x) l1 -> P e ->
  exists rest, before = l1 ++ rest /\ l2 = rest ++ e :: after.
Proof.
  revert before. induction l1 as [|x l1 IH]; intros before Heq Hl He.
  - exists before. split; [reflexivity | exact Heq].
  - inversion Hl as [|? ? Hx Hl']; subst.
    destruct before as [|y before]; cbn in Heq; injection Heq as -> Heq.
    + contradiction.
    + destruct (IH before Heq Hl' He) as (rest & -> & ->).
      exists rest. split; reflexivity.
Qed.

Lemma no_hashStart (l : list LedgerBTC.Event) :
  Forall (fun e => method e = GetPublicKey \/ method e = GetTrustedInput) l ->
  forallb (fun e => negb (isHashStart e)) l = true.
Proof.
  intros Hl. apply forallb_forall. intros e He.
  rewrite Forall_forall in Hl. apply list_elem_of_In in He.
  unfold isHashStart. destruct (Hl e He) as [-> | ->]; reflexivity.
Qed.

Lemma nullifyFlag_method (e : LedgerBTC.Event) (b : bool) :
  nullifyFlag e = Some b -> method e = HashTransactionStartNullify.
Proof.
  unfold nullifyFlag, method. destruct (LedgerBTC.call e); try discriminate.
  reflexivity.
Qed.

(** C3, as the code has it: a [hashTransactionStartNullify] call is passed
    [isNew = true] exactly when no call that starts a hashing pass
    ([hashTransactionStart], [hashTransactionStartNullify] or
    [hashTransactionStartSegwit]) was made before it in the run; so every
    such call but the first is passed false, and all of them are when some
    descriptor has [witness] set. *)
Theorem nullify_isNew_flag (ledgerInputs : list nat)
    (w w' : LedgerBcoin.World) (o : Outcome LedgerBcoin.TxArg) :
  LedgerBcoin.signTransaction LedgerBcoin.TheMTX ledgerInputs w = Some (o, w') ->
  exists evs,
    LedgerBcoin.calls w' = LedgerBcoin.calls w ++ evs /\
    forall before e after b,
      evs = before ++ e :: after ->
      nullifyFlag e = Some b ->
      b = forallb (fun e' => negb (isHashStart e')) before /\
      (anyWitness w ledgerInputs = true -> b = false).
Proof.
  intros Hrun. destruct (signTransaction_run _ _ _ _ Hrun) as (_ & evs & Hc & Hr).
  exists evs. split; [exact Hc|]. clear Hrun Hc.
  intros before e after b Hsplit Hflag.
  pose proof (nullifyFlag_method _ _ Hflag) as Hme.
  assert (Hnot : forall l, Forall (fun ev => method ev = GetPublicKey \/
                                     method ev = GetTrustedInput \/
                                     method ev = HashTransactionStart \/
                                     method ev = HashOutputFinalize) l ->
                 ~ In e l).
  { intros l Hl Hin. rewrite Forall_forall in Hl.
    apply list_elem_of_In in Hin.
    destruct (Hl e Hin) as [He|[He|[He|He]]]; congruence. }
  assert (Hin : In e evs) by (rewrite Hsplit; apply in_elt).
  destruct Hr as [e0 keys Hk | e0 keys trusted Hk Ht Hp
                 | e0 keys entries priming Hk Hen Hw Hp
                 | o keys entries t loop Hk Hen Hl].
  - exfalso. apply (Hnot keys); [|exact Hin].
    eapply Forall_impl; [exact Hk|]. auto.
  - exfalso. apply (Hnot (keys ++ trusted)); [|exact Hin].
    apply Forall_app. split; (eapply Forall_impl; [eassumption|]); auto.
  - exfalso. apply (Hnot (keys ++ map (entryEvent w) entries ++ priming));
      [|exact Hin].
    destruct (primingAttempt_calls _ Hp) as (_ & _ & Hpm).
    repeat (apply Forall_app; split).
    + eapply Forall_impl; [exact Hk|]. auto.
    + eapply Forall_impl; [apply entryEvents_method|]. auto.
    + eapply Forall_impl; [exact Hpm|]. intros ev [He|He]; auto.
  - clear Hin Hnot.
    set (pre := keys ++ map (entryEvent w) entries ++
                (if anyWitness w ledgerInputs then primingPass t else [])).
    assert (Hpre : Forall (fun x => ~ method x = HashTransactionStartNullify) pre).
    { unfold pre. repeat (apply Forall_app; split).
      - eapply Forall_impl; [exact Hk|]. intros ev ->. discriminate.
      - eapply Forall_impl; [apply entryEvents_method|]. intros ev ->.
        discriminate.
      - destruct (anyWitness w ledgerInputs); repeat constructor; discriminate. }
    assert (Heq : pre ++ loop = before ++ e :: after)
      by (unfold pre; rewrite <- !app_assoc; exact Hsplit).
    destruct (split_before (fun x => method x = HashTransactionStartNullify)
                _ _ _ _ _ Heq Hpre Hme) as (rest & -> & ->).
    rewrite forallb_app.
    assert (Hprestart : forallb (fun e' => negb (isHashStart e')) pre =
                        negb (anyWitness w ledgerInputs)).
    { unfold pre. rewrite !forallb_app.
      rewrite (no_hashStart keys)
        by (eapply Forall_impl; [exact Hk|]; auto).
      rewrite (no_hashStart (map _ entries))
        by (eapply Forall_impl; [apply entryEvents_method|]; auto).
      destruct (anyWitness w ledgerInputs); reflexivity. }
    rewrite Hprestart.
    destruct rest as [|e1 rest].
    + destruct Hl as [Ho _]. unfold opensInput in Ho.
      unfold nullifyFlag in Hflag.
      destruct (LedgerBTC.call e); try discriminate.
      injection Hflag as ->. destruct Ho as [_ ->]. cbn.
      rewrite andb_true_r. split; [reflexivity|]. intros ->. reflexivity.
    + destruct Hl as [Ho Hf]. cbn [app] in Hf.
      apply Forall_app in Hf. destruct Hf as [_ Hf].
      apply Forall_cons in Hf. destruct Hf as [He _].
      unfold laterInLoop in He. unfold nullifyFlag in Hflag.
      destruct (LedgerBTC.call e); try discriminate.
      injection Hflag as ->. destruct He as [_ ->].
      assert (Hs1 : isHashStart e1 = true).
      { unfold isHashStart. destruct (opens_method _ _ _ Ho) as [-> | ->];
          reflexivity. }
      cbn. rewrite Hs1. cbn. rewrite andb_false_r. split; reflexivity.
Qed.

(** ** Folding the signature *)

(** C2, as the code has it.  Once [signInput] has its signature:
    when [signVector] returns a falsy value, [signInput] returns false
    without throwing and without writing to the transaction, and the loop
    of [_signTransaction], which does not look at that result, goes on with
    the remaining descriptors; when [signVector] throws, [signInput] throws
    the same exception, again without writing, and the loop ends there. *)
Theorem fold_failure_is_not_fatal (ledgerInput : nat)
    (trustedInputs : gmap string TrustedInput) (index : option nat)
    (isNew : bool) (w w1 : LedgerBcoin.World) (p : LedgerBcoin.Prepared) :
  LedgerBcoin.hashAndSign ledgerInput trustedInputs index isNew w =
    (Returned p, w1) ->
  (MTX_signVector (LedgerBcoin.mtx w1)
     (LedgerBcoin.c_prev (LedgerBcoin.p_class p))
     (if LedgerBcoin.c_redeem (LedgerBcoin.p_class p)
      then removelast (LedgerBcoin.p_stack p) else LedgerBcoin.p_stack p)
     (LedgerBcoin.p_sig p) (LedgerBcoin.p_ring p) = inr None ->
   LedgerBcoin.signInput ledgerInput trustedInputs index isNew w =
     (Returned false, w1) /\
   forall w0 pokey txIndexByKey rest,
     LedgerBcoin.on ledgerInput LedgerTXInput.toKey w0 = (Returned pokey, w) ->
     txIndexByKey !! pokey = index ->
     LedgerBcoin.signInputs (ledgerInput :: rest) trustedInputs txIndexByKey
       isNew w0 =
     LedgerBcoin.signInputs rest trustedInputs txIndexByKey false w1) /\
  (forall e,
     MTX_signVector (LedgerBcoin.mtx w1)
       (LedgerBcoin.c_prev (LedgerBcoin.p_class p))
       (if LedgerBcoin.c_redeem (LedgerBcoin.p_class p)
        then removelast (LedgerBcoin.p_stack p) else LedgerBcoin.p_stack p)
       (LedgerBcoin.p_sig p) (LedgerBcoin.p_ring p) = inl e ->
     LedgerBcoin.signInput ledgerInput trustedInputs index isNew w =
       (Threw e, w1) /\
     forall w0 pokey txIndexByKey rest,
       LedgerBcoin.on ledgerInput LedgerTXInput.toKey w0 = (Returned pokey, w) ->
       txIndexByKey !! pokey = index ->
       LedgerBcoin.signInputs (ledgerInput :: rest) trustedInputs txIndexByKey
         isNew w0 = (Threw e, w1)).
Proof.
  intros Hprep.
  assert (Hsign : forall r o,
    MTX_signVector (LedgerBcoin.mtx w1)
      (LedgerBcoin.c_prev (LedgerBcoin.p_class p))
      (if LedgerBcoin.c_redeem (LedgerBcoin.p_class p)
       then removelast (LedgerBcoin.p_stack p) else LedgerBcoin.p_stack p)
      (LedgerBcoin.p_sig p) (LedgerBcoin.p_ring p) = r ->
    match r with
    | inl e => o = Threw e
    | inr None => o = Returned false
    | inr (Some _) => False
    end ->
    LedgerBcoin.signInput ledgerInput trustedInputs index isNew w = (o, w1)).
  { intros r o Hfold Ho.
    unfold LedgerBcoin.signInput, bind. rewrite Hprep.
    unfold LedgerBcoin.foldSignature, bind, gets, LedgerBcoin.pop.
    destruct (LedgerBcoin.c_redeem (LedgerBcoin.p_class p));
      rewrite Hfold; destruct r as [e|[result|]]; try contradiction;
      subst o; reflexivity. }
  split.
  - intros Hfold.
    pose proof (Hsign _ (Returned false) Hfold eq_refl) as Hfalse.
    split; [exact Hfalse|].
    intros w0 pokey txIndexByKey rest Hkey Hindex.
    cbn [LedgerBcoin.signInputs]. unfold bind at 1. rewrite Hkey.
    unfold bind at 1. rewrite Hindex, Hfalse. reflexivity.
  - intros e Hfold.
    pose proof (Hsign _ (Threw e) Hfold eq_refl) as Hthrew.
    split; [exact Hthrew|].
    intros w0 pokey txIndexByKey rest Hkey Hindex.
    cbn [LedgerBcoin.signInputs]. unfold bind at 1. rewrite Hkey.
    unfold bind at 1. rewrite Hindex, Hthrew. reflexivity.
Qed.

(** C7: when [signInput] folds a signature in the redeem case, the item
    popped from the templated stack before the fold is the last item of the
    stack that is written back to the vector of the input. *)
Theorem redeem_script_stays_last (ledgerInput : nat)
    (trustedInputs : gmap string TrustedInput) (index : option nat)
    (isNew : bool) (w w1 w' : LedgerBcoin.World) (p : LedgerBcoin.Prepared) :
  LedgerBcoin.hashAndSign ledgerInput trustedInputs index isNew w =
    (Returned p, w1) ->
  LedgerBcoin.c_redeem (LedgerBcoin.p_class p) = true ->
  LedgerBcoin.signInput ledgerInput trustedInputs index isNew w =
    (Returned true, w') ->
  exists redeem stack result,
    LedgerBcoin.p_stack p = stack ++ [redeem] /\
    MTX_signVector (LedgerBcoin.mtx w1)
      (LedgerBcoin.c_prev (LedgerBcoin.p_class p)) stack
      (LedgerBcoin.p_sig p) (LedgerBcoin.p_ring p) = inr (Some result) /\
    MTX.inputs (LedgerBcoin.mtx w') !! LedgerBcoin.p_index p =
      Some (LedgerBcoin.fromStack (LedgerBcoin.c_vector (LedgerBcoin.p_class p))
              (result ++ [redeem]) (LedgerBcoin.p_input p)) /\
    last (result ++ [redeem]) = Some redeem.
Proof.
  intros Hprep Hredeem Hsign.
  destruct (hashAndSign_spec _ _ _ _ _ _ _ Hprep) as (_ & _ & _ & Hin).
  specialize (Hin p eq_refl).
  unfold LedgerBcoin.signInput, bind in Hsign. rewrite Hprep in Hsign.
  unfold LedgerBcoin.foldSignature, bind, gets, LedgerBcoin.pop in Hsign.
  rewrite Hredeem in Hsign.
  destruct (MTX_signVector _ _ _ _ _) as [e|[result|]] eqn:Hfold;
    [discriminate| |discriminate].
  destruct (last (LedgerBcoin.p_stack p)) as [redeem|] eqn:Hlast;
    [|discriminate].
  cbn in Hsign. injection Hsign as <-.
  apply last_Some in Hlast. destruct Hlast as [stack Hstack].
  rewrite Hstack, removelast_last in Hfold.
  exists redeem, stack, result.
  split; [exact Hstack|]. split; [exact Hfold|]. split.
  - cbn. rewrite list_lookup_alter, Hin.
    rewrite decide_True by reflexivity. reflexivity.
  - apply last_snoc.
Qed.


(** * Further properties of the descriptor *)

(** X1: [isU32] accepts exactly the integers from 0 to 2^32 - 1. *)
Theorem isU32_iff_range (z : Z) :
  LedgerTXInput.isU32 (Options.IndexInt z) = true <-> 0 <= z < 2 ^ 32.
Proof.
  unfold LedgerTXInput.isU32. rewrite Z.eqb_eq. split.
  - intros <-. apply Z.mod_pos_bound. reflexivity.
  - intros Hz. apply Z.mod_small, Hz.
Qed.

(** What [fromOptions] does to the descriptor it runs on: the caches are
    never touched, and when it returns the index is a uint32 and the
    transaction is set. *)
Lemma fromOptions_spec (options : option Options.t) (d : LedgerTXInput.t) :
  post (LedgerTXInput.fromOptions options) d (fun o d' =>
    (LedgerTXInput._key d' = LedgerTXInput._key d /\
     LedgerTXInput._outpoint d' = LedgerTXInput._outpoint d /\
     LedgerTXInput._coin d' = LedgerTXInput._coin d /\
     LedgerTXInput._ring d' = LedgerTXInput._ring d /\
     LedgerTXInput._prev d' = LedgerTXInput._prev d) /\
    (o = Returned tt ->
       0 <= LedgerTXInput.index d' < 2 ^ 32 /\
       is_Some (LedgerTXInput.tx d'))).
Proof.
  unfold LedgerTXInput.fromOptions.
  repeat mstep;
    (split; [cbn; repeat split | try discriminate]);
    intros _; cbn; (split; [apply isU32_iff_range; assumption | eauto]).
Qed.

(** X2: a descriptor that [LedgerTXInput.fromOptions] constructs has a
    transaction, a uint32 output index and empty caches. *)
Theorem fromOptions_constructed (options : option Options.t)
    (d : LedgerTXInput.t) :
  LedgerTXInput.new_fromOptions options = inr d ->
  0 <= LedgerTXInput.index d < 2 ^ 32 /\
  is_Some (LedgerTXInput.tx d) /\
  LedgerTXInput._key d = "" /\
  LedgerTXInput._outpoint d = None /\
  LedgerTXInput._coin d = None /\
  LedgerTXInput._ring d = None /\
  LedgerTXInput._prev d = None.
Proof.
  unfold LedgerTXInput.new_fromOptions.
  destruct (LedgerTXInput.fromOptions options LedgerTXInput.init)
    as [[[]|e] d'] eqn:E; [|discriminate].
  intros [= <-].
  destruct (fromOptions_spec _ _ _ _ E) as [(Hk & Ho & Hc & Hr & Hp) Hret].
  destruct (Hret eq_refl) as [Hi Ht].
  repeat split; try assumption; try apply Hi.
Qed.

(** X3: [fromOptions] run on a descriptor that was used before does not
    clear its caches, whether it returns or throws: a descriptor with a
    cached key keeps answering that key from [toKey()] whatever transaction
    and index the options carry. *)
Theorem fromOptions_keeps_caches (options : option Options.t)
    (d d' : LedgerTXInput.t) (o : Outcome unit) :
  LedgerTXInput.fromOptions options d = (o, d') ->
  LedgerTXInput._key d' = LedgerTXInput._key d /\
  LedgerTXInput._outpoint d' = LedgerTXInput._outpoint d /\
  LedgerTXInput._coin d' = LedgerTXInput._coin d /\
  LedgerTXInput._ring d' = LedgerTXInput._ring d /\
  LedgerTXInput._prev d' = LedgerTXInput._prev d /\
  (LedgerTXInput.string_nonempty (LedgerTXInput._key d) = true ->
   LedgerTXInput.toKey d' = (Returned (LedgerTXInput._key d), d')).
Proof.
  intros Hrun.
  destruct (fromOptions_spec _ _ _ _ Hrun) as [(Hk & Ho & Hc & Hr & Hp) _].
  repeat split; try assumption.
  intros Hne. rewrite <- Hk in Hne |- *.
  unfold LedgerTXInput.toKey, bind, gets, ret. rewrite Hne. reflexivity.
Qed.

(** X4: [toKey()] is idempotent: once it has returned a key, calling it
    again returns the same key and leaves the descriptor as it is. *)
Theorem toKey_idempotent (d d1 : LedgerTXInput.t) (k : string) :
  LedgerTXInput.toKey d = (Returned k, d1) ->
  LedgerTXInput.toKey d1 = (Returned k, d1).
Proof.
  destruct d as [p x i w r ty pk rg cn key pv op].
  unfold LedgerTXInput.toKey, LedgerTXInput.getOutpoint, bind, gets,
    modify, ret, throw, lift. cbn.
  destruct (LedgerTXInput.string_nonempty key) eqn:Ek.
  - intros [= <- <-]. cbn. rewrite Ek. reflexivity.
  - destruct op as [op|]; cbn.
    + intros [= <- <-]. cbn.
      destruct (LedgerTXInput.string_nonempty (Outpoint_toKey op)); reflexivity.
    + destruct x as [x|]; cbn; [|discriminate].
      destruct (Outpoint_fromTX x i) as [e|op]; cbn; [discriminate|].
      intros [= <- <-]. cbn.
      destruct (LedgerTXInput.string_nonempty (Outpoint_toKey op)); reflexivity.
Qed.

(** X5: [getCoin] and [getRing] answer from their cache: once either has
    returned, a later call returns the same object and changes nothing,
    even when it is given another height or another network. *)
Theorem cached_coin_and_ring_ignore_arguments (d d1 : LedgerTXInput.t) :
  (forall height c,
     LedgerTXInput.getCoin height d = (Returned c, d1) ->
     forall height', LedgerTXInput.getCoin height' d1 = (Returned c, d1)) /\
  (forall network ring,
     LedgerTXInput.getRing network d = (Returned ring, d1) ->
     forall network', LedgerTXInput.getRing network' d1 = (Returned ring, d1)).
Proof.
  destruct d as [p x i w r ty pk rg cn key pv op]. split.
  - intros height c.
    unfold LedgerTXInput.getCoin, bind, gets, modify, ret, throw, lift. cbn.
    destruct cn as [c0|]; cbn.
    + intros [= <- <-] height'. reflexivity.
    + destruct x as [x|]; cbn; [|discriminate].
      destruct (Coin_fromTX x i height) as [e|c0]; cbn; [discriminate|].
      intros [= <- <-] height'. reflexivity.
  - intros network ring.
    unfold LedgerTXInput.getRing, bind, gets, modify, ret, throw, lift. cbn.
    destruct pk as [pk|]; cbn; [|discriminate].
    destruct rg as [r0|]; cbn.
    + intros [= <- <-] network'. reflexivity.
    + destruct (KeyRing_fromPublic pk network) as [e|r0]; cbn; [discriminate|].
      intros [= <- <-] network'. reflexivity.
Qed.

(** X6: after [refresh()], [toKey()] answers the key of the outpoint made
    of the transaction and the index of the descriptor, whatever key and
    outpoint were cached before, and caches both again. *)
Theorem refresh_then_toKey (d : LedgerTXInput.t) (x : TX) (op : Outpoint) :
  LedgerTXInput.tx d = Some x ->
  Outpoint_fromTX x (LedgerTXInput.index d) = inr op ->
  exists d',
    (LedgerTXInput.refresh ;;; LedgerTXInput.toKey) d =
      (Returned (Outpoint_toKey op), d') /\
    LedgerTXInput._outpoint d' = Some op /\
    LedgerTXInput._key d' = Outpoint_toKey op.
Proof.
  destruct d as [p x0 i w r ty pk rg cn key pv op0]. cbn.
  intros -> Hop.
  unfold LedgerTXInput.refresh, LedgerTXInput.toKey, LedgerTXInput.getOutpoint,
    bind, gets, modify, ret, throw, lift. cbn. rewrite Hop. cbn.
  eexists. repeat split.
Qed.

(** * Further properties of the orchestrator *)

(** The map of the third loop, from any start: a key of the inputs maps to
    the index of the last input that has it; any other key is as in the
    map the loop started from. *)
Lemma findIndexes_lookup (inputs : list Input.t) (i : nat)
    (m : gmap string nat) (k : string) (j : nat) :
  LedgerBcoin.findIndexes i inputs m !! k = Some j <->
  (exists n input,
     j = (i + n)%nat /\ inputs !! n = Some input /\
     Outpoint_toKey (Input.prevout input) = k /\
     forall n' input', (n < n')%nat -> inputs !! n' = Some input' ->
       Outpoint_toKey (Input.prevout input') <> k) \/
  (m !! k = Some j /\
   forall n input, inputs !! n = Some input ->
     Outpoint_toKey (Input.prevout input) <> k).
Proof.
  revert i m. induction inputs as [|input rest IH]; intros i m;
    cbn [LedgerBcoin.findIndexes].
  - split.
    + intros Hm. right. split; [exact Hm|]. intros n input Hn.
      rewrite lookup_nil in Hn. discriminate.
    + intros [(n & input & _ & Hn & _) | [Hm _]]; [|exact Hm].
      rewrite lookup_nil in Hn. discriminate.
  - rewrite IH. split.
    + intros [(n & input' & -> & Hn & Hk & Hlast) | [Hm Hnone]].
      * left. exists (S n), input'. repeat split; try assumption; [lia|].
        intros [|n'] input'' Hlt Hn'; [lia|]. cbn in Hn'.
        apply (Hlast n' input''); [lia | exact Hn'].
      * destruct (decide (Outpoint_toKey (Input.prevout input) = k)) as [Hk|Hk].
        -- left. exists 0%nat, input. rewrite Hk, lookup_insert_eq in Hm.
           injection Hm as <-. repeat split; try assumption; [lia|].
           intros [|n'] input' Hlt Hn'; [lia|]. cbn in Hn'.
           apply (Hnone n' input' Hn').
        -- right. rewrite lookup_insert_ne in Hm by exact Hk.
           split; [exact Hm|]. intros [|n] input' Hn; cbn in Hn.
           ++ injection Hn as <-. exact Hk.
           ++ apply (Hnone n input' Hn).
    + intros [(n & input' & -> & Hn & Hk & Hlast) | [Hm Hnone]].
      * destruct n as [|n]; cbn in Hn.
        -- injection Hn as <-. right. split.
           ++ rewrite Hk, lookup_insert_eq. f_equal. lia.
           ++ intros n input' Hn'. apply (Hlast (S n) input'); [lia | exact Hn'].
        -- left. exists n, input'. repeat split; try assumption; [lia|].
           intros n' input'' Hlt Hn'. apply (Hlast (S n') input''); [lia | exact Hn'].
      * right. split.
        -- rewrite lookup_insert_ne; [exact Hm|]. apply (Hnone 0%nat input eq_refl).
        -- intros n input' Hn. apply (Hnone (S n) input' Hn).
Qed.

(** X7: in the map from prevout keys to input indexes that
    [_signTransaction] builds, a key maps to [j] exactly when [j] is the
    index of the last input of the transaction with that key; in
    particular a key that no input has is absent. *)
Theorem findIndexes_last_input (inputs : list Input.t) (k : string) (j : nat) :
  LedgerBcoin.findIndexes 0 inputs ∅ !! k = Some j <->
  exists input,
    inputs !! j = Some input /\
    Outpoint_toKey (Input.prevout input) = k /\
    forall j' input', (j < j')%nat -> inputs !! j' = Some input' ->
      Outpoint_toKey (Input.prevout input') <> k.
Proof.
  rewrite findIndexes_lookup. split.
  - intros [(n & input & -> & Hn & Hk & Hlast) | [Hm _]].
    + exists input. repeat split; assumption.
    + rewrite lookup_empty in Hm. discriminate.
  - intros (input & Hj & Hk & Hlast). left. exists j, input.
    repeat split; assumption.
Qed.

(** A driver call changes the history only, by the one event of the call;
    without a driver it changes nothing and throws. *)
Lemma perform_exact {A} (c : LedgerBTC.Call)
    (answer : LedgerBTC.t -> list LedgerBTC.Event -> Exn + A)
    (rep : A -> LedgerBTC.Reply) (w : LedgerBcoin.World) :
  post (LedgerBcoin.perform c answer rep) w (fun o w' =>
    (LedgerBcoin.ledger w = None /\ w' = w /\ exists e, o = Threw e) \/
    (exists r,
       is_Some (LedgerBcoin.ledger w) /\
       w' = LedgerBcoin.set_calls
              (LedgerBcoin.calls w ++ [LedgerBTC.mkEvent c r]) w /\
       match o with
       | Returned a => r = rep a
       | Threw e => r = LedgerBTC.Rejected e
       end)).
Proof.
  intros o w' Hrun. unfold LedgerBcoin.perform in Hrun.
  destruct (LedgerBcoin.ledger w) as [d|] eqn:El.
  - right. destruct (answer d (LedgerBcoin.calls w)) as [e|a];
      injection Hrun as <- <-; eexists; repeat split; eauto.
  - left. injection Hrun as <- <-. repeat split. eauto.
Qed.

(** The effect of [getPublicKey] on the world. *)
Lemma getPublicKey_effect (path : option Options.PathVal)
    (addressFlags : Z) (w w' : LedgerBcoin.World) (o : Outcome HDPublicKey) :
  LedgerBcoin.getPublicKey path addressFlags w = (o, w') ->
  exists evs,
    LedgerBcoin.calls w' = LedgerBcoin.calls w ++ evs /\
    LedgerBcoin.heap w' = LedgerBcoin.heap w /\
    LedgerBcoin.mtx w' = LedgerBcoin.mtx w /\
    LedgerBcoin.signingTX w' = LedgerBcoin.signingTX w /\
    LedgerBcoin.txlock w' = LedgerBcoin.txlock w /\
    LedgerBcoin.ledger w' = LedgerBcoin.ledger w /\
    (length evs <= 1)%nat /\
    (LedgerBcoin.ledger w = None -> evs = [] /\ exists e, o = Threw e) /\
    (forall hd, o = Returned hd ->
       exists indexes data,
         evs = [LedgerBTC.mkEvent (LedgerBTC.getPublicKey indexes addressFlags)
                  (LedgerBTC.PublicKeyReply data)] /\
         (path = Some (Options.PathArray indexes) \/
          exists s, path = Some (Options.PathString s) /\
                    parsePath s true = inr indexes)).
Proof.
  revert o w'.
  lazymatch goal with
  | |- forall o w', _ = (o, w') -> @?Q o w' =>
      change (post (LedgerBcoin.getPublicKey path addressFlags) w Q);
      assert (Hquiet : forall e, Q (Threw e) w)
  end.
  { cbv beta. intros e. exists []. rewrite app_nil_r.
    repeat split; try reflexivity; [apply Nat.le_0_1 | eauto | discriminate]. }
  cbv beta in Hquiet.
  unfold LedgerBcoin.getPublicKey. repeat mstep; try apply Hquiet.
  all: unfold LedgerBcoin.ledger_getPublicKey.
  all: eapply post_mono; [apply perform_exact|].
  all: intros o w1 [(_ & -> & e & ->) | (r & Hdev & -> & Hr)]; cbv beta iota;
    try apply Hquiet.
  all: assert (Hnone : LedgerBcoin.ledger w = None ->
                       forall P : Prop, P)
         by (intros Hn; rewrite Hn in Hdev; destruct Hdev; discriminate).
  all: destruct o as [data|e];
    [subst r; repeat mstep|];
    eexists; cbn; (split; [reflexivity|]);
    do 5 (split; [reflexivity|]);
    (split; [apply le_n|]); (split; [intros Hn; apply (Hnone Hn)|]);
    try discriminate.
  all: intros hd _; do 2 eexists; split; [reflexivity|]; eauto.
Qed.

(** X8: [getPublicKey] makes at most one call to the driver, a
    [getPublicKey] call, and changes nothing else: not the descriptors, the
    transaction, the signing flag or the lock.  Without a device it throws
    before any call; when it returns, the one call carries the path that
    was given, parsed if it was a string, and the address flags, and was
    resolved. *)
Theorem getPublicKey_one_call (path : option Options.PathVal)
    (addressFlags : Z) (w w' : LedgerBcoin.World) (o : Outcome HDPublicKey) :
  LedgerBcoin.getPublicKey path addressFlags w = (o, w') ->
  exists evs,
    LedgerBcoin.calls w' = LedgerBcoin.calls w ++ evs /\
    LedgerBcoin.heap w' = LedgerBcoin.heap w /\
    LedgerBcoin.mtx w' = LedgerBcoin.mtx w /\
    LedgerBcoin.signingTX w' = LedgerBcoin.signingTX w /\
    LedgerBcoin.txlock w' = LedgerBcoin.txlock w /\
    LedgerBcoin.ledger w' = LedgerBcoin.ledger w /\
    (length evs <= 1)%nat /\
    (LedgerBcoin.ledger w = None -> evs = [] /\ exists e, o = Threw e) /\
    (forall hd, o = Returned hd ->
       exists indexes data,
         evs = [LedgerBTC.mkEvent (LedgerBTC.getPublicKey indexes addressFlags)
                  (LedgerBTC.PublicKeyReply data)] /\
         (path = Some (Options.PathArray indexes) \/
          exists s, path = Some (Options.PathString s) /\
                    parsePath s true = inr indexes)).
Proof. apply getPublicKey_effect. Qed.

(** The effect of the first loop of [_signTransaction]. *)
Lemma updatePublicKeys_effect (ledgerInputs : list nat)
    (w w' : LedgerBcoin.World) (o : Outcome unit) :
  LedgerBcoin.updatePublicKeys ledgerInputs w = (o, w') ->
  LedgerBcoin.mtx w' = LedgerBcoin.mtx w /\
  (forall li,
     LedgerBcoin.heap w' li = LedgerBcoin.heap w li \/
     (LedgerTXInput.publicKey (LedgerBcoin.heap w li) = None /\
      li ∈ ledgerInputs /\
      exists k, LedgerBcoin.heap w' li =
                LedgerTXInput.set_publicKey (Some k) (LedgerBcoin.heap w li))) /\
  (o = Returned tt ->
   forall li, li ∈ ledgerInputs ->
     is_Some (LedgerTXInput.publicKey (LedgerBcoin.heap w' li))) /\
  (exists evs,
     LedgerBcoin.calls w' = LedgerBcoin.calls w ++ evs /\
     (length evs <= length ledgerInputs)%nat /\
     (Forall (fun li => is_Some (LedgerTXInput.publicKey (LedgerBcoin.heap w li)))
             ledgerInputs -> evs = [] /\ o = Returned tt)).
Proof.
  revert w w' o. induction ledgerInputs as [|li rest IH]; intros w w' o Hrun.
  - injection Hrun as <- <-. split; [reflexivity|].
    split; [intros li; left; reflexivity|].
    split; [intros _ li Hin; apply elem_of_nil in Hin; contradiction|].
    exists []. rewrite app_nil_r. split; [reflexivity|].
    split; [apply le_n|]. intros _. split; reflexivity.
  - cbn [LedgerBcoin.updatePublicKeys] in Hrun. unfold bind at 1, gets in Hrun.
    unfold bind at 1 in Hrun.
    destruct (LedgerTXInput.publicKey (LedgerBcoin.heap w li)) as [k|] eqn:Ek.
    + (* the descriptor has its key *)
      cbn in Hrun.
      destruct (IH _ _ _ Hrun) as (Hm & Hh & Hret & evs & Hc & Hlen & Hall).
      split; [exact Hm|]. split; [|split].
      * intros r. destruct (Hh r) as [Heq | (Hn & Hin & Hk)]; [left; exact Heq|].
        right. split; [exact Hn|]. split; [apply elem_of_cons; auto | exact Hk].
      * intros Ho r Hin. apply elem_of_cons in Hin. destruct Hin as [-> | Hin].
        -- destruct (Hh li) as [-> | (Hn & _)]; [rewrite Ek; eauto | congruence].
        -- apply Hret; assumption.
      * exists evs. split; [exact Hc|]. split; [cbn; lia|].
        intros Hf. apply Forall_cons in Hf. apply Hall, Hf.
    + (* the key is asked for *)
      unfold bind at 1 in Hrun.
      destruct (LedgerBcoin.getPublicKey
                  (Some (Options.PathArray
                           (LedgerTXInput.path (LedgerBcoin.heap w li)))) 0 w)
        as [o1 w1] eqn:E1.
      destruct (getPublicKey_effect _ _ _ _ _ E1)
        as (evs1 & Hc1 & Hh1 & Hm1 & _ & _ & _ & Hlen1 & _ & _).
      assert (Hnotall :
        Forall (fun r => is_Some (LedgerTXInput.publicKey (LedgerBcoin.heap w r)))
               (li :: rest) -> forall P : Prop, P).
      { intros Hf. apply Forall_cons in Hf. destruct Hf as [[k Hk] _]. congruence. }
      destruct o1 as [hd|e].
      2:{ injection Hrun as <- <-. split; [exact Hm1|]. split; [|split].
          - intros r. left. rewrite Hh1. reflexivity.
          - discriminate.
          - exists evs1. split; [exact Hc1|]. split; [cbn; lia|].
            intros Hf. apply (Hnotall Hf). }
      set (k := HDPublicKey_publicKey hd) in *.
      set (w2 := LedgerBcoin.set_heap
                   (LedgerBcoin.upd (LedgerBcoin.heap w1) li
                      (LedgerTXInput.set_publicKey (Some k) (LedgerBcoin.heap w1 li)))
                   w1).
      change (LedgerBcoin.updatePublicKeys rest w2 = (o, w')) in Hrun.
      destruct (IH _ _ _ Hrun) as (Hm & Hh & Hret & evs & Hc & Hlen & _).
      assert (Hli : LedgerBcoin.heap w2 li =
                    LedgerTXInput.set_publicKey (Some k) (LedgerBcoin.heap w li)).
      { unfold w2. cbn. unfold LedgerBcoin.upd. rewrite Nat.eqb_refl, Hh1.
        reflexivity. }
      assert (Hother : forall r, r <> li ->
                LedgerBcoin.heap w2 r = LedgerBcoin.heap w r).
      { intros r Hr. unfold w2. cbn. unfold LedgerBcoin.upd.
        apply Nat.eqb_neq in Hr. rewrite Hr, Hh1. reflexivity. }
      assert (Hli' : LedgerBcoin.heap w' li =
                     LedgerTXInput.set_publicKey (Some k) (LedgerBcoin.heap w li)).
      { destruct (Hh li) as [-> | (Hn & _)]; [exact Hli|].
        rewrite Hli in Hn. discriminate. }
      split; [rewrite Hm; exact Hm1|]. split; [|split].
      * intros r. destruct (Nat.eq_dec r li) as [->|Hr].
        -- right. split; [exact Ek|]. split; [apply elem_of_cons; auto|].
           exists k. exact Hli'.
        -- destruct (Hh r) as [Heq | (Hn & Hin & k' & Hk')].
           ++ left. rewrite Heq. apply Hother, Hr.
           ++ right. rewrite (Hother r Hr) in Hn, Hk'.
              split; [exact Hn|]. split; [apply elem_of_cons; auto|]. eauto.
      * intros Ho r Hin. apply elem_of_cons in Hin. destruct Hin as [-> | Hin].
        -- rewrite Hli'. cbn. eauto.
        -- apply Hret; assumption.
      * exists (evs1 ++ evs). split.
        -- rewrite Hc. unfold w2. cbn. rewrite Hc1, app_assoc. reflexivity.
        -- split; [rewrite length_app; cbn; lia|].
           intros Hf. apply (Hnotall Hf).
Qed.

(** X9: the first loop of [_signTransaction] changes no descriptor but by
    giving a public key to one that is listed and had none; a key that is
    there is kept.  It asks the device at most once per listed descriptor
    and not at all when every listed descriptor has its key; when it
    returns, every listed descriptor has a public key. *)
Theorem updatePublicKeys_fills_keys (ledgerInputs : list nat)
    (w w' : LedgerBcoin.World) (o : Outcome unit) :
  LedgerBcoin.updatePublicKeys ledgerInputs w = (o, w') ->
  LedgerBcoin.mtx w' = LedgerBcoin.mtx w /\
  (forall li,
     LedgerBcoin.heap w' li = LedgerBcoin.heap w li \/
     (LedgerTXInput.publicKey (LedgerBcoin.heap w li) = None /\
      li ∈ ledgerInputs /\
      exists k, LedgerBcoin.heap w' li =
                LedgerTXInput.set_publicKey (Some k) (LedgerBcoin.heap w li))) /\
  (o = Returned tt ->
   forall li, li ∈ ledgerInputs ->
     is_Some (LedgerTXInput.publicKey (LedgerBcoin.heap w' li))) /\
  (exists evs,
     LedgerBcoin.calls w' = LedgerBcoin.calls w ++ evs /\
     (length evs <= length ledgerInputs)%nat /\
     (Forall (fun li => is_Some (LedgerTXInput.publicKey (LedgerBcoin.heap w li)))
             ledgerInputs -> evs = [] /\ o = Returned tt)).
Proof. apply updatePublicKeys_effect. Qed.

(** X10: handed something that is not an [MTX], [signTransaction] throws
    the assertion error of [_signTransaction] and leaves the whole world as
    it was: nothing is sent to the device, [signingTX] is not set and the
    lock is free again. *)
Theorem signTransaction_rejects_non_MTX (ledgerInputs : list nat)
    (w : LedgerBcoin.World) :
  Lock.busy (LedgerBcoin.txlock w) = false ->
  LedgerBcoin.signTransaction LedgerBcoin.NotMTX ledgerInputs w =
    Some (Threw (AssertionError "Cannot use non-MTX tx for signing"), w).
Proof.
  destruct w as [dev net flag [busy] cs hp tx]. cbn. intros ->. reflexivity.
Qed.

(** X11: with no descriptor to sign, [signTransaction] returns the
    transaction without a call to the device, even when there is no
    device; the only change is that [signingTX] is false afterwards,
    also when an earlier failed run had left it set. *)
Theorem signTransaction_no_descriptors (w : LedgerBcoin.World) :
  Lock.busy (LedgerBcoin.txlock w) = false ->
  LedgerBcoin.signTransaction LedgerBcoin.TheMTX [] w =
    Some (Returned LedgerBcoin.TheMTX, LedgerBcoin.set_signingTX false w).
Proof.
  destruct w as [dev net flag [busy] cs hp tx]. cbn. intros ->. reflexivity.
Qed.

(** [tx.scriptInput] throws and changes nothing, or stores the templated
    transaction. *)
Lemma scriptInput_exact (index : option nat) (coin : Coin) (ring : KeyRing)
    (w : LedgerBcoin.World) :
  post (LedgerBcoin.scriptInput index coin ring) w (fun o w' =>
    (w' = w /\ exists e, o = Threw e) \/
    (exists t tx',
       MTX_scriptInput (LedgerBcoin.mtx w) index coin ring = inr (t, tx') /\
       o = Returned t /\ w' = LedgerBcoin.set_mtx tx' w)).
Proof.
  intros o w' Hrun. unfold LedgerBcoin.scriptInput in Hrun.
  destruct (MTX_scriptInput (LedgerBcoin.mtx w) index coin ring)
    as [e|[t tx']] eqn:E; injection Hrun as <- <-; [left | right]; eauto.
Qed.

Lemma signTail_mtx (ledgerInput : nat) (tx : MTX.t) (index : option nat)
    (c : LedgerBcoin.Classified) (ring : KeyRing) (w : LedgerBcoin.World) :
  post
    (d <- gets (fun w0 => LedgerBcoin.heap w0 ledgerInput) ;;
     sig <- LedgerBcoin.ledger_hashSign tx (LedgerTXInput.path d)
              (LedgerTXInput.type d) ;;
     located <- LedgerBcoin.inputAt index ;;
     stack <- lift (LedgerBcoin.toStack (LedgerBcoin.c_vector c) (snd located)) ;;
     ret (LedgerBcoin.mkPrepared (fst located) (snd located) c ring sig stack))
    w (fun _ w' => LedgerBcoin.mtx w' = LedgerBcoin.mtx w).
Proof.
  mstep. mstep. unfold LedgerBcoin.ledger_hashSign.
  muse (@call_spec Buffer). intros o w1 (Hm & _).
  destruct o as [sig|e]; [|exact Hm].
  muse inputAt_spec. intros o w2 [-> _].
  destruct o as [located|e]; [|exact Hm].
  repeat mstep; exact Hm.
Qed.

(** Up to the fold, [signInput] changes the transaction through
    [scriptInput] only. *)
Lemma hashAndSign_mtx (ledgerInput : nat)
    (trustedInputs : gmap string TrustedInput) (index : option nat)
    (isNew : bool) (w : LedgerBcoin.World) :
  post (LedgerBcoin.hashAndSign ledgerInput trustedInputs index isNew) w
    (fun _ w' =>
       LedgerBcoin.mtx w' = LedgerBcoin.mtx w \/
       exists coin ring t,
         MTX_scriptInput (LedgerBcoin.mtx w) index coin ring =
           inr (t, LedgerBcoin.mtx w')).
Proof.
  unfold LedgerBcoin.hashAndSign.
  muse on_toKey_spec. intros o w1 (_ & Hm1 & _).
  destruct o as [inputKey|e]; [|left; exact Hm1].
  mstep. mstep.
  muse on_getRing_spec. intros o w2 (_ & Hm2).
  destruct o as [ring|e]; [|left; congruence].
  muse on_getCoin_spec. intros o w3 (_ & Hm3).
  destruct o as [coin|e]; [|left; congruence].
  assert (Hm : LedgerBcoin.mtx w3 = LedgerBcoin.mtx w) by congruence.
  muse scriptInput_exact.
  intros o w4 [(-> & e & ->) | (t & tx' & Htpl & -> & ->)];
    [left; exact Hm|].
  assert (Hdone : LedgerBcoin.mtx (LedgerBcoin.set_mtx tx' w3) =
                    LedgerBcoin.mtx w \/
                  exists coin0 ring0 t0,
                    MTX_scriptInput (LedgerBcoin.mtx w) index coin0 ring0 =
                      inr (t0, LedgerBcoin.mtx (LedgerBcoin.set_mtx tx' w3))).
  { right. exists coin, ring, t. rewrite <- Hm. exact Htpl. }
  mstep. mstep; mstep; [|exact Hdone].
  muse inputAt_spec. intros o w5 [-> _].
  destruct o as [located|e]; [|exact Hdone].
  mstep. mstep; mstep; [exact Hdone|].
  mstep. mstep.
  muse hashPass_spec. intros o w6 (Hm6 & _).
  destruct o as [[]|e]; [|rewrite Hm6; exact Hdone].
  eapply post_mono; [apply signTail_mtx|]. intros o w7 Hm7.
  cbv beta in Hm7. rewrite Hm7, Hm6. exact Hdone.
Qed.

(** The fold changes the world only when it returns true. *)
Lemma foldSignature_unchanged (p : LedgerBcoin.Prepared)
    (w w' : LedgerBcoin.World) (o : Outcome bool) :
  LedgerBcoin.foldSignature p w = (o, w') -> o <> Returned true -> w' = w.
Proof.
  unfold LedgerBcoin.foldSignature, LedgerBcoin.writeVector, bind, gets,
    modify, ret, LedgerBcoin.pop.
  destruct (LedgerBcoin.c_redeem (LedgerBcoin.p_class p)).
  - destruct (MTX_signVector _ _ _ _ _) as [e|[result|]].
    + intros [= <- <-] _. reflexivity.
    + destruct (last (LedgerBcoin.p_stack p)); cbn.
      * intros [= <- <-] Ho. congruence.
      * intros [= <- <-] _. reflexivity.
    + intros [= <- <-] _. reflexivity.
  - destruct (MTX_signVector _ _ _ _ _) as [e|[result|]].
    + intros [= <- <-] _. reflexivity.
    + intros [= <- <-] Ho. congruence.
    + intros [= <- <-] _. reflexivity.
Qed.

(** X12: when [signInput] throws or returns false, no script-sig and no
    witness was written: the transaction is as it was handed in, or as
    [tx.scriptInput] templated it. *)
Theorem signInput_failure_writes_nothing (ledgerInput : nat)
    (trustedInputs : gmap string TrustedInput) (index : option nat)
    (isNew : bool) (w w' : LedgerBcoin.World) (o : Outcome bool) :
  LedgerBcoin.signInput ledgerInput trustedInputs index isNew w = (o, w') ->
  o <> Returned true ->
  LedgerBcoin.mtx w' = LedgerBcoin.mtx w \/
  exists coin ring t,
    MTX_scriptInput (LedgerBcoin.mtx w) index coin ring =
      inr (t, LedgerBcoin.mtx w').
Proof.
  unfold LedgerBcoin.signInput, bind. intros Hrun Ho.
  destruct (LedgerBcoin.hashAndSign ledgerInput trustedInputs index isNew w)
    as [[p|e] w1] eqn:E.
  - rewrite (foldSignature_unchanged _ _ _ _ Hrun Ho).
    exact (hashAndSign_mtx _ _ _ _ _ _ _ E).
  - injection Hrun as <- <-. exact (hashAndSign_mtx _ _ _ _ _ _ _ E).
Qed.

Lemma writeVector_effect (i : nat) (vector : LedgerBcoin.Vector)
    (result : list Buffer) (w : LedgerBcoin.World) :
  let w' := LedgerBcoin.set_mtx
              (MTX.set_inputs
                 (alter (LedgerBcoin.fromStack vector result) i
                        (MTX.inputs (LedgerBcoin.mtx w)))
                 (LedgerBcoin.mtx w)) w in
  MTX.body (LedgerBcoin.mtx w') = MTX.body (LedgerBcoin.mtx w) /\
  length (MTX.inputs (LedgerBcoin.mtx w')) =
    length (MTX.inputs (LedgerBcoin.mtx w)) /\
  (forall j, j <> i ->
     MTX.inputs (LedgerBcoin.mtx w') !! j = MTX.inputs (LedgerBcoin.mtx w) !! j) /\
  (forall input input',
     MTX.inputs (LedgerBcoin.mtx w) !! i = Some input ->
     MTX.inputs (LedgerBcoin.mtx w') !! i = Some input' ->
     Input.prevout input' = Input.prevout input /\
     match vector with
     | LedgerBcoin.ScriptSig => Input.witness input' = Input.witness input
     | LedgerBcoin.WitnessVector => Input.script input' = Input.script input
     end).
Proof.
  cbn. split; [reflexivity|]. split; [apply length_alter|]. split.
  - intros j Hj. apply list_lookup_alter_ne. congruence.
  - intros input input' Hin. rewrite list_lookup_alter, Hin.
    rewrite decide_True by reflexivity. cbn. intros [= <-].
    destruct vector; split; reflexivity.
Qed.

(** X13: the fold of [signInput] touches the transaction only: descriptors,
    history, flag and lock are kept.  In the transaction it keeps the
    number of inputs and everything but the input that is signed, and of
    that input it keeps the prevout and the vector that does not receive
    the signature: the witness when the script-sig is written, the
    script-sig when the witness is written. *)
Theorem foldSignature_writes_one_vector (p : LedgerBcoin.Prepared)
    (w w' : LedgerBcoin.World) (o : Outcome bool) :
  LedgerBcoin.foldSignature p w = (o, w') ->
  LedgerBcoin.heap w' = LedgerBcoin.heap w /\
  LedgerBcoin.calls w' = LedgerBcoin.calls w /\
  LedgerBcoin.signingTX w' = LedgerBcoin.signingTX w /\
  LedgerBcoin.txlock w' = LedgerBcoin.txlock w /\
  MTX.body (LedgerBcoin.mtx w') = MTX.body (LedgerBcoin.mtx w) /\
  length (MTX.inputs (LedgerBcoin.mtx w')) =
    length (MTX.inputs (LedgerBcoin.mtx w)) /\
  (forall j, j <> LedgerBcoin.p_index p ->
     MTX.inputs (LedgerBcoin.mtx w') !! j = MTX.inputs (LedgerBcoin.mtx w) !! j) /\
  (forall input input',
     MTX.inputs (LedgerBcoin.mtx w) !! LedgerBcoin.p_index p = Some input ->
     MTX.inputs (LedgerBcoin.mtx w') !! LedgerBcoin.p_index p = Some input' ->
     Input.prevout input' = Input.prevout input /\
     match LedgerBcoin.c_vector (LedgerBcoin.p_class p) with
     | LedgerBcoin.ScriptSig => Input.witness input' = Input.witness input
     | LedgerBcoin.WitnessVector => Input.script input' = Input.script input
     end).
Proof.
  intros Hrun.
  assert (Hsame : w' = w ->
    LedgerBcoin.heap w' = LedgerBcoin.heap w /\
    LedgerBcoin.calls w' = LedgerBcoin.calls w /\
    LedgerBcoin.signingTX w' = LedgerBcoin.signingTX w /\
    LedgerBcoin.txlock w' = LedgerBcoin.txlock w /\
    MTX.body (LedgerBcoin.mtx w') = MTX.body (LedgerBcoin.mtx w) /\
    length (MTX.inputs (LedgerBcoin.mtx w')) =
      length (MTX.inputs (LedgerBcoin.mtx w)) /\
    (forall j, j <> LedgerBcoin.p_index p ->
       MTX.inputs (LedgerBcoin.mtx w') !! j =
       MTX.inputs (LedgerBcoin.mtx w) !! j) /\
    (forall input input',
       MTX.inputs (LedgerBcoin.mtx w) !! LedgerBcoin.p_index p = Some input ->
       MTX.inputs (LedgerBcoin.mtx w') !! LedgerBcoin.p_index p = Some input' ->
       Input.prevout input' = Input.prevout input /\
       match LedgerBcoin.c_vector (LedgerBcoin.p_class p) with
       | LedgerBcoin.ScriptSig => Input.witness input' = Input.witness input
       | LedgerBcoin.WitnessVector => Input.script input' = Input.script input
       end)).
  { intros ->. do 7 (split; [reflexivity|]).
    intros input input' -> [= <-]. split; [reflexivity|].
    destruct (LedgerBcoin.c_vector _); reflexivity. }
  destruct o as [[|]|e];
    try (apply Hsame, (foldSignature_unchanged _ _ _ _ Hrun); discriminate).
  clear Hsame. revert Hrun.
  unfold LedgerBcoin.foldSignature, LedgerBcoin.writeVector, bind, gets,
    modify, ret, LedgerBcoin.pop.
  destruct (LedgerBcoin.c_redeem (LedgerBcoin.p_class p)).
  - destruct (MTX_signVector _ _ _ _ _) as [e|[result|]];
      [discriminate| |discriminate].
    destruct (last (LedgerBcoin.p_stack p)); cbn; [|discriminate].
    intros [= <-]. do 4 (split; [reflexivity|]). apply writeVector_effect.
  - destruct (MTX_signVector _ _ _ _ _) as [e|[result|]];
      [discriminate| |discriminate].
    intros [= <-]. do 4 (split; [reflexivity|]). apply writeVector_effect.
Qed.


(** * The order of the signatures *)

Lemma signArgs_none (m : Method) (l : list LedgerBTC.Event) :
  m <> HashSign -> Forall (fun e => method e = m) l -> omap signArgs l = [].
Proof.
  intros Hm. induction 1 as [|e l He _ IH]; [reflexivity|].
  cbn. rewrite IH. unfold signArgs. unfold method in He.
  destruct (LedgerBTC.call e); try reflexivity. congruence.
Qed.

Lemma passKey_none (m : Method) (l : list LedgerBTC.Event) :
  m <> HashTransactionStartNullify -> m <> HashTransactionStartSegwit ->
  Forall (fun e => method e = m) l -> omap passKey l = [].
Proof.
  intros Hm1 Hm2. induction 1 as [|e l He _ IH]; [reflexivity|].
  cbn. rewrite IH. unfold passKey. unfold method in He.
  destruct (LedgerBTC.call e); try reflexivity; congruence.
Qed.

Lemma hashPass_calls (trustedInputs : gmap string TrustedInput) (isNew : bool)
    (tx : MTX.t) (key : string) (prev : Script) (witness : bool)
    (w : LedgerBcoin.World) :
  post (if negb witness then
          LedgerBcoin.ledger_hashTransactionStartNullify tx key prev
            trustedInputs isNew witness ;;;
          LedgerBcoin.ledger_hashOutputFinalize tx
        else LedgerBcoin.ledger_hashTransactionStartSegwit tx key prev) w
    (fun o w' =>
       o = Returned tt ->
       exists evs, step w w' evs /\
         omap signArgs evs = [] /\ omap passKey evs = [key]).
Proof.
  destruct witness; cbn [negb].
  - unfold LedgerBcoin.ledger_hashTransactionStartSegwit.
    eapply post_mono; [apply perform_spec|].
    intros o w' [_ [[_ [e ->]] | [r [Hs _]]]]; [discriminate|].
    intros _. eexists. split; [exact Hs|]. split; reflexivity.
  - unfold LedgerBcoin.ledger_hashTransactionStartNullify,
      LedgerBcoin.ledger_hashOutputFinalize.
    muse (@perform_spec unit). intros o w1 [_ [[_ [e ->]] | [r1 [Hs1 _]]]];
      [discriminate|].
    destruct o as [[]|e]; [|discriminate].
    eapply post_mono; [apply perform_spec|].
    intros o w2 [_ [[_ [e ->]] | [r2 [Hs2 _]]]]; [discriminate|].
    intros _. eexists. split; [eapply step_trans; eassumption|].
    split; reflexivity.
Qed.

Lemma signTail_calls (ledgerInput : nat) (tx : MTX.t) (index : option nat)
    (c : LedgerBcoin.Classified) (ring : KeyRing) (w : LedgerBcoin.World) :
  post
    (d <- gets (fun w0 => LedgerBcoin.heap w0 ledgerInput) ;;
     sig <- LedgerBcoin.ledger_hashSign tx (LedgerTXInput.path d)
              (LedgerTXInput.type d) ;;
     located <- LedgerBcoin.inputAt index ;;
     stack <- lift (LedgerBcoin.toStack (LedgerBcoin.c_vector c) (snd located)) ;;
     ret (LedgerBcoin.mkPrepared (fst located) (snd located) c ring sig stack))
    w
    (fun o w' =>
       forall p, o = Returned p ->
       exists evs, step w w' evs /\
         omap passKey evs = [] /\
         omap signArgs evs =
           [(LedgerTXInput.path (LedgerBcoin.heap w ledgerInput),
             LedgerTXInput.type (LedgerBcoin.heap w ledgerInput))]).
Proof.
  mstep. mstep. unfold LedgerBcoin.ledger_hashSign.
  muse (@perform_spec Buffer). intros o w1 [_ Hp].
  destruct o as [sig|e]; [|discriminate].
  destruct Hp as [[_ [e [=]]] | [r [Hs _]]].
  muse inputAt_spec. intros o w2 [-> _].
  destruct o as [located|e]; [|discriminate].
  mstep. mstep; mstep; [discriminate|]. mstep.
  intros p _. eexists. split; [exact Hs|]. split; reflexivity.
Qed.

Lemma hashAndSign_calls (ledgerInput : nat)
    (trustedInputs : gmap string TrustedInput) (index : option nat)
    (isNew : bool) (w : LedgerBcoin.World) :
  post (LedgerBcoin.hashAndSign ledgerInput trustedInputs index isNew) w
    (fun o w' =>
       forall p, o = Returned p ->
       exists evs k, step w w' evs /\
         keyOf (LedgerBcoin.heap w ledgerInput) = inr k /\
         omap passKey evs = [k] /\
         omap signArgs evs =
           [(LedgerTXInput.path (LedgerBcoin.heap w ledgerInput),
             LedgerTXInput.type (LedgerBcoin.heap w ledgerInput))]).
Proof.
  unfold LedgerBcoin.hashAndSign.
  pose proof (step_refl w) as Hacc.
  muse on_toKey_spec. intros o w1 (Hs & _ & Hkey). advance Hacc Hs.
  destruct o as [inputKey|e]; [|discriminate].
  specialize (Hkey inputKey eq_refl).
  mstep. mstep.
  muse on_getRing_spec. intros o w2 (Hs & _). advance Hacc Hs.
  destruct o as [ring|e]; [|discriminate].
  muse on_getCoin_spec. intros o w3 (Hs & _). advance Hacc Hs.
  destruct o as [coin|e]; [|discriminate].
  muse scriptInput_spec. intros o w4 Hs. advance Hacc Hs.
  destruct o as [templated|e]; [|discriminate].
  mstep. mstep; mstep; [|discriminate].
  muse inputAt_spec. intros o w5 [-> _].
  destruct o as [located|e]; [|discriminate].
  mstep. mstep; mstep; [discriminate|].
  mstep. mstep.
  muse hashPass_calls. intros o w6 Hpass.
  destruct o as [[]|e]; [|discriminate].
  destruct (Hpass eq_refl) as (evs1 & Hs1 & Hsign1 & Hkey1).
  pose proof (step_silent _ _ _ _ Hacc Hs1) as Hacc1.
  eapply post_mono; [apply signTail_calls|]. intros o w7 Htail p Hp.
  destruct (Htail p Hp) as (evs2 & Hs2 & Hkey2 & Hsign2).
  exists (evs1 ++ evs2), inputKey.
  split; [eapply step_trans; eassumption|]. split; [exact Hkey|].
  rewrite !omap_app, Hkey1, Hkey2, Hsign1, Hsign2. cbn.
  destruct (step_required _ _ _ ledgerInput Hacc1) as (-> & _ & _ & _ & _ & -> & _).
  split; reflexivity.
Qed.

Lemma signInputs_calls (ledgerInputs : list nat)
    (trustedInputs : gmap string TrustedInput) (txIndexByKey : gmap string nat)
    (newtx : bool) (w : LedgerBcoin.World) :
  post (LedgerBcoin.signInputs ledgerInputs trustedInputs txIndexByKey newtx) w
    (fun o w' =>
       o = Returned tt ->
       exists evs, step w w' evs /\
         omap signArgs evs =
           map (fun li => (LedgerTXInput.path (LedgerBcoin.heap w li),
                           LedgerTXInput.type (LedgerBcoin.heap w li)))
               ledgerInputs /\
         Forall2 (fun li k => keyOf (LedgerBcoin.heap w li) = inr k)
                 ledgerInputs (omap passKey evs)).
Proof.
  revert newtx w. induction ledgerInputs as [|li rest IH]; intros newtx w;
    cbn [LedgerBcoin.signInputs].
  - mstep. intros _. exists []. split; [apply step_refl|].
    split; [reflexivity | constructor].
  - muse on_toKey_spec. intros o w1 (Hs1 & _ & _).
    destruct o as [pokey|e]; [|discriminate].
    unfold LedgerBcoin.signInput.
    apply post_bind. apply post_bind.
    eapply post_mono; [apply hashAndSign_calls|]. cbv beta.
    intros o w2 Hprep. destruct o as [p|e]; [|discriminate].
    destruct (Hprep p eq_refl) as (evs1 & k & Hs2 & Hk & Hkey1 & Hsign1).
    eapply post_mono; [apply foldSignature_spec|]. cbv beta.
    intros o w3 Hs3. destruct o as [b|e]; [|discriminate].
    eapply post_mono; [apply IH|]. cbv beta. intros o w4 Hrest Ho.
    destruct (Hrest Ho) as (evs2 & Hs4 & Hsign2 & Hkey2).
    assert (Hs13 : step w w3 evs1).
    { eapply step_silent; [exact Hs1|]. rewrite <- (app_nil_r evs1).
      eapply step_trans; eassumption. }
    exists (evs1 ++ evs2). split; [eapply step_trans; eassumption|].
    rewrite !omap_app, Hsign1, Hkey1, Hsign2. cbn [app map].
    destruct (step_required _ _ _ li Hs1) as (Hp & _ & _ & _ & _ & Ht & Hko).
    split.
    + rewrite Hp, Ht. f_equal. apply map_ext_in. intros r _.
      destruct (step_required _ _ _ r Hs13) as (-> & _ & _ & _ & _ & -> & _).
      reflexivity.
    + constructor; [rewrite <- Hko; exact Hk|].
      eapply Forall2_impl; [exact Hkey2|]. intros r k' Hr. cbv beta in Hr.
      destruct (step_required _ _ _ r Hs13) as (_ & _ & _ & _ & _ & _ & <-).
      exact Hr.
Qed.

(** The signatures and the input keys of a run of [_signTransaction] that
    returns. *)
Lemma _signTransaction_calls (ledgerInputs : list nat) (w : LedgerBcoin.World) :
  post (LedgerBcoin._signTransaction LedgerBcoin.TheMTX ledgerInputs) w
    (fun o w' =>
       forall t, o = Returned t ->
       exists evs,
         LedgerBcoin.calls w' = LedgerBcoin.calls w ++ evs /\
         omap signArgs evs =
           map (fun li => (LedgerTXInput.path (LedgerBcoin.heap w li),
                           LedgerTXInput.type (LedgerBcoin.heap w li)))
               ledgerInputs /\
         Forall2 (fun li k => keyOf (LedgerBcoin.heap w li) = inr k)
                 ledgerInputs (omap passKey evs)).
Proof.
  unfold LedgerBcoin._signTransaction. cbn [LedgerBcoin.isMTX assert].
  mstep. mstep. mstep. mstep.
  set (w0 := LedgerBcoin.set_signingTX true w).
  muse updatePublicKeys_spec. intros o w1 (keys & Hs1 & Hkeys).
  destruct o as [[]|e]; [|discriminate].
  muse collectTrustedInputs_spec.
  intros o w2 (trusted & Hs2 & Htrusted & _ & _).
  destruct o as [[trustedInputs hasWitness]|e]; [|discriminate].
  pose proof (step_trans _ _ _ _ _ Hs1 Hs2) as Hs12.
  mstep. mstep.
  muse priming_spec. intros o w3 (priming & Hs3 & Hpr).
  destruct o as [newtx|e]; [|discriminate].
  destruct Hpr as [-> ->].
  pose proof (step_trans _ _ _ _ _ Hs12 Hs3) as Hs123.
  muse signInputs_calls. intros o w4 Hloop.
  destruct o as [[]|e]; [|discriminate].
  destruct (Hloop eq_refl) as (loop & Hs4 & Hsign & Hkey).
  mstep. mstep. mstep. intros t _.
  pose proof (step_trans _ _ _ _ _ Hs123 Hs4) as Hs.
  destruct Hs as (_ & _ & _ & _ & _ & Hc).
  eexists. split; [exact Hc|].
  assert (Hpre_sign : omap signArgs
            ((keys ++ trusted) ++
             (if hasWitness then primingPass (LedgerBcoin.mtx w2) else [])) = []).
  { rewrite !omap_app, (signArgs_none GetPublicKey keys),
      (signArgs_none GetTrustedInput trusted)
      by (discriminate || assumption).
    destruct hasWitness; reflexivity. }
  assert (Hpre_key : omap passKey
            ((keys ++ trusted) ++
             (if hasWitness then primingPass (LedgerBcoin.mtx w2) else [])) = []).
  { rewrite !omap_app, (passKey_none GetPublicKey keys),
      (passKey_none GetTrustedInput trusted)
      by (discriminate || assumption).
    destruct hasWitness; reflexivity. }
  rewrite !(omap_app _ _ loop), Hpre_sign, Hpre_key. cbn [app].
  split.
  - rewrite Hsign. apply map_ext_in. intros r _.
    destruct (step_required _ _ _ r Hs123) as (-> & _ & _ & _ & _ & -> & _).
    reflexivity.
  - eapply Forall2_impl; [exact Hkey|]. intros r k Hr. cbv beta in Hr.
    destruct (step_required _ _ _ r Hs123) as (_ & _ & _ & _ & _ & _ & Hk0).
    rewrite Hk0 in Hr. exact Hr.
Qed.

(** X15: in a run of [signTransaction] that returns, [hashSign] is called
    once for every descriptor, in the order of the array that was handed
    in, with the path and the type of that descriptor; and the hashing
    passes that open the inputs carry, in the same order, the keys of the
    descriptors. *)
Theorem signatures_in_descriptor_order (ledgerInputs : list nat)
    (w w' : LedgerBcoin.World) (t : LedgerBcoin.TxArg) :
  LedgerBcoin.signTransaction LedgerBcoin.TheMTX ledgerInputs w =
    Some (Returned t, w') ->
  exists evs,
    LedgerBcoin.calls w' = LedgerBcoin.calls w ++ evs /\
    omap signArgs evs =
      map (fun li => (LedgerTXInput.path (LedgerBcoin.heap w li),
                      LedgerTXInput.type (LedgerBcoin.heap w li)))
          ledgerInputs /\
    Forall2 (fun li k => keyOf (LedgerBcoin.heap w li) = inr k)
            ledgerInputs (omap passKey evs).
Proof.
  unfold LedgerBcoin.signTransaction.
  destruct (Lock.lock (LedgerBcoin.txlock w)) as [held|]; [|discriminate].
  destruct (LedgerBcoin._signTransaction LedgerBcoin.TheMTX ledgerInputs
              (LedgerBcoin.set_txlock held w)) as [o1 w1] eqn:E.
  intros [= -> <-].
  exact (_signTransaction_calls _ _ _ _ E t eq_refl).
Qed.

(** * What a run leaves alone *)

Lemma _signTransaction_frame (tx : LedgerBcoin.TxArg) (ledgerInputs : list nat)
    (w : LedgerBcoin.World) :
  post (LedgerBcoin._signTransaction tx ledgerInputs) w
    (fun o w' =>
       LedgerBcoin.ledger w' = LedgerBcoin.ledger w /\
       LedgerBcoin.network w' = LedgerBcoin.network w /\
       forall li, same_required (LedgerBcoin.heap w li) (LedgerBcoin.heap w' li)).
Proof.
  destruct tx.
  2:{ intros o w' [= <- <-]. split; [reflexivity|]. split; [reflexivity|].
      intros li. apply same_required_refl. }
  unfold LedgerBcoin._signTransaction. cbn [LedgerBcoin.isMTX assert].
  mstep. mstep. mstep. mstep.
  set (w0 := LedgerBcoin.set_signingTX true w).
  assert (Hout : forall w' evs,
    step w0 w' evs ->
    LedgerBcoin.ledger w' = LedgerBcoin.ledger w /\
    LedgerBcoin.network w' = LedgerBcoin.network w /\
    forall li, same_required (LedgerBcoin.heap w li) (LedgerBcoin.heap w' li)).
  { intros w' evs (Hl & Hn & _ & _ & Hh & _).
    split; [exact Hl|]. split; [exact Hn | exact Hh]. }
  muse updatePublicKeys_spec. intros o w1 (keys & Hs1 & _).
  destruct o as [[]|e]; [|eapply Hout; exact Hs1].
  muse collectTrustedInputs_spec. intros o w2 (trusted & Hs2 & _).
  pose proof (step_trans _ _ _ _ _ Hs1 Hs2) as Hs12.
  destruct o as [[trustedInputs hasWitness]|e]; [|eapply Hout; exact Hs12].
  mstep. mstep.
  muse priming_spec. intros o w3 (priming & Hs3 & _).
  pose proof (step_trans _ _ _ _ _ Hs12 Hs3) as Hs123.
  destruct o as [newtx|e]; [|eapply Hout; exact Hs123].
  muse signInputs_spec. intros o w4 (loop & Hs4 & _).
  pose proof (step_trans _ _ _ _ _ Hs123 Hs4) as Hs.
  destruct o as [[]|e]; [|eapply Hout; exact Hs].
  mstep. mstep. mstep.
  destruct (Hout _ _ Hs) as (Hl & Hn & Hh).
  split; [exact Hl|]. split; [exact Hn | exact Hh].
Qed.

(** X16: however a call of [signTransaction] ends, it leaves the device
    driver and the network of the instance as they were and, in every
    descriptor, the path, the transaction, the index, the witness flag, the
    redeem script, the signature hash type and the key answered by
    [toKey]. *)
Theorem signTransaction_keeps_descriptors (tx : LedgerBcoin.TxArg)
    (ledgerInputs : list nat) (w w' : LedgerBcoin.World)
    (o : Outcome LedgerBcoin.TxArg) :
  LedgerBcoin.signTransaction tx ledgerInputs w = Some (o, w') ->
  LedgerBcoin.ledger w' = LedgerBcoin.ledger w /\
  LedgerBcoin.network w' = LedgerBcoin.network w /\
  forall li, same_required (LedgerBcoin.heap w li) (LedgerBcoin.heap w' li).
Proof.
  unfold LedgerBcoin.signTransaction.
  destruct (Lock.lock (LedgerBcoin.txlock w)) as [held|]; [|discriminate].
  destruct (LedgerBcoin._signTransaction tx ledgerInputs
              (LedgerBcoin.set_txlock held w)) as [o1 w1] eqn:E.
  intros [= <- <-].
  exact (_signTransaction_frame _ _ _ _ _ E).
Qed.
End Proofs.

(** * The theorems on the small instance *)

Section Instance.
#[local] Existing Instance Toy.types.
#[local] Existing Instance Toy.ops.

Lemma fromOptions_type_check_witness :
  LedgerTXInput.new_fromOptions
    (Some (Options.mk (Some (Options.PathArray [44; 0; 0]))
             (Some (Options.TxObject ("aa", Toy.plain)))
             (Options.IndexInt 0) (Some 1) None None None)) =
    inl (AssertionError "Ledger only supports SIGHASH_ALL") /\
  exists d,
    LedgerTXInput.new_fromOptions
      (Some (Options.mk (Some (Options.PathArray [44; 0; 0]))
               (Some (Options.TxObject ("aa", Toy.plain)))
               (Options.IndexInt 0) (Some 2) None None None)) = inr d /\
    LedgerTXInput.type d = 2.
Proof.
  assert (Hrange : 0 <= 0 < 2 ^ 32) by (split; [reflexivity | reflexivity]).
  destruct (@fromOptions_type_check Toy.types Toy.ops [44; 0; 0] ("aa", Toy.plain) 0 None Hrange)
    as (Hall & Hother & _).
  split; [exact Hall|]. apply Hother. discriminate.
Defined.

Lemma signTransaction_releases_lock_witness :
  exists o w',
    LedgerBcoin.signTransaction LedgerBcoin.TheMTX [2%nat; 0%nat]
      Toy.w_rejecting = Some (o, w') /\
    Lock.busy (LedgerBcoin.txlock w') = false /\
    forall tx2 ledgerInputs2,
      exists o2 w2,
        LedgerBcoin.signTransaction tx2 ledgerInputs2 w' = Some (o2, w2).
Proof.
  apply (@signTransaction_releases_lock Toy.types Toy.ops LedgerBcoin.TheMTX [2%nat; 0%nat]
           Toy.w_rejecting).
  reflexivity.
Defined.

Lemma signingTX_stays_set_on_failure_witness :
  exists e w',
    LedgerBcoin.signTransaction LedgerBcoin.TheMTX [2%nat; 0%nat]
      Toy.w_rejecting = Some (Threw e, w') /\
    Lock.busy (LedgerBcoin.txlock w') = false /\
    LedgerBcoin.signingTX w' = true.
Proof.
  do 2 eexists. split; [vm_compute; reflexivity|].
  lazymatch goal with
  | |- _ /\ LedgerBcoin.signingTX ?w' = true =>
      apply (@signingTX_stays_set_on_failure Toy.types Toy.ops
               LedgerBcoin.TheMTX [2%nat; 0%nat] Toy.w_rejecting w'
               (Threw (LedgerError "status 0x6985")))
  end.
  - reflexivity.
  - vm_compute. reflexivity.
Defined.

(** Signing the three descriptors with a device that resolves every call:
    the run returns and makes one [hashTransactionStart] call. *)
Lemma priming_pass_once_witness :
  exists w' evs,
    LedgerBcoin.signTransaction LedgerBcoin.TheMTX [0%nat; 1%nat; 2%nat]
      Toy.w_signing = Some (Returned LedgerBcoin.TheMTX, w') /\
    LedgerBcoin.calls w' = LedgerBcoin.calls Toy.w_signing ++ evs /\
    (length (callsTo HashTransactionStart evs) <= 1)%nat.
Proof.
  eexists. 
  assert (Hrun : LedgerBcoin.signTransaction LedgerBcoin.TheMTX
                   [0%nat; 1%nat; 2%nat] Toy.w_signing =
                 Some (Returned LedgerBcoin.TheMTX, _))
    by (vm_compute; reflexivity).
  destruct (@priming_pass_once Toy.types Toy.ops _ _ _ _ Hrun)
    as (evs & Hcalls & Hle & _).
  exists evs. split; [exact Hrun|]. split; [exact Hcalls | exact Hle].
Defined.

(** On the same run, the one [getTrustedInput] call is the one of
    descriptor 0. *)
Lemma trusted_input_once_per_descriptor_witness :
  exists w' evs,
    LedgerBcoin.signTransaction LedgerBcoin.TheMTX [0%nat; 1%nat; 2%nat]
      Toy.w_signing = Some (Returned LedgerBcoin.TheMTX, w') /\
    LedgerBcoin.calls w' = LedgerBcoin.calls Toy.w_signing ++ evs /\
    map LedgerBTC.call (callsTo GetTrustedInput evs) `prefix_of`
      [trustedCall Toy.w_signing 0%nat].
Proof.
  eexists.
  assert (Hrun : LedgerBcoin.signTransaction LedgerBcoin.TheMTX
                   [0%nat; 1%nat; 2%nat] Toy.w_signing =
                 Some (Returned LedgerBcoin.TheMTX, _))
    by (vm_compute; reflexivity).
  destruct (@trusted_input_once_per_descriptor Toy.types Toy.ops _ _ _ _ Hrun)
    as (evs & Hcalls & Hprefix & _).
  exists evs. split; [exact Hrun|]. split; [exact Hcalls | exact Hprefix].
Defined.

(** Signing the two descriptors that are not witness inputs: a nullify
    call with nothing before it would be passed true. *)
Lemma nullify_isNew_flag_witness :
  exists w' evs,
    LedgerBcoin.signTransaction LedgerBcoin.TheMTX [0%nat; 1%nat]
      Toy.w_blank = Some (Returned LedgerBcoin.TheMTX, w') /\
    LedgerBcoin.calls w' = LedgerBcoin.calls Toy.w_blank ++ evs /\
    forall e after b,
      evs = [] ++ e :: after -> nullifyFlag e = Some b -> b = true.
Proof.
  eexists.
  assert (Hrun : LedgerBcoin.signTransaction LedgerBcoin.TheMTX
                   [0%nat; 1%nat] Toy.w_blank =
                 Some (Returned LedgerBcoin.TheMTX, _))
    by (vm_compute; reflexivity).
  destruct (@nullify_isNew_flag Toy.types Toy.ops _ _ _ _ Hrun)
    as (evs & Hcalls & Hflag).
  exists evs. split; [exact Hrun|]. split; [exact Hcalls|].
  intros e after b Hsplit He. apply (Hflag [] e after b Hsplit He).
Defined.

(** [signVector] declines the output of descriptor 0 of [Toy.others], and
    [signInput] returns false; it throws on the multisig output of
    descriptor 1, whose input is not templated for it, and so does
    [signInput]. *)
Lemma fold_failure_is_not_fatal_witness :
  (exists p w1,
     LedgerBcoin.hashAndSign 0%nat ∅ (Some 0%nat) true
       (Toy.keyed Toy.w_others) = (Returned p, w1) /\
     LedgerBcoin.signInput 0%nat ∅ (Some 0%nat) true
       (Toy.keyed Toy.w_others) = (Returned false, w1)) /\
  (exists p w1,
     LedgerBcoin.hashAndSign 1%nat ∅ (Some 2%nat) false
       (Toy.keyed Toy.w_others) = (Returned p, w1) /\
     LedgerBcoin.signInput 1%nat ∅ (Some 2%nat) false
       (Toy.keyed Toy.w_others) =
       (Threw (Error "Input has not been templated."), w1)).
Proof.
  split.
  - do 2 eexists.
    assert (Hprep : LedgerBcoin.hashAndSign 0%nat ∅ (Some 0%nat) true
                      (Toy.keyed Toy.w_others) = (Returned _, _))
      by (vm_compute; reflexivity).
    split; [exact Hprep|].
    destruct (@fold_failure_is_not_fatal Toy.types Toy.ops _ _ _ _ _ _ _ Hprep)
      as [Hfalsy _].
    apply Hfalsy. reflexivity.
  - do 2 eexists.
    assert (Hprep : LedgerBcoin.hashAndSign 1%nat ∅ (Some 2%nat) false
                      (Toy.keyed Toy.w_others) = (Returned _, _))
      by (vm_compute; reflexivity).
    split; [exact Hprep|].
    destruct (@fold_failure_is_not_fatal Toy.types Toy.ops _ _ _ _ _ _ _ Hprep)
      as [_ Hthrows].
    apply Hthrows. reflexivity.
Defined.

(** The fold of descriptor 1, a P2SH input, keeps the redeem script last. *)
Lemma redeem_script_stays_last_witness :
  exists p w1 w' stack result,
    LedgerBcoin.hashAndSign 1%nat ∅ (Some 2%nat) true
      (Toy.keyed Toy.w_signing) = (Returned p, w1) /\
    LedgerBcoin.p_stack p = stack ++ [[x51; xae]] /\
    MTX.inputs (LedgerBcoin.mtx w') !! 2%nat =
      Some (LedgerBcoin.fromStack LedgerBcoin.ScriptSig
              (result ++ [[x51; xae]]) (LedgerBcoin.p_input p)) /\
    last (result ++ [[x51; xae]]) = Some [x51; xae].
Proof.
  do 3 eexists.
  assert (Hprep : LedgerBcoin.hashAndSign 1%nat ∅ (Some 2%nat) true
                    (Toy.keyed Toy.w_signing) = (Returned _, _))
    by (vm_compute; reflexivity).
  assert (Hsign : LedgerBcoin.signInput 1%nat ∅ (Some 2%nat) true
                    (Toy.keyed Toy.w_signing) = (Returned true, _))
    by (vm_compute; reflexivity).
  destruct (@redeem_script_stays_last Toy.types Toy.ops _ _ _ _ _ _ _ _
              Hprep eq_refl Hsign)
    as (redeem & stack & result & Hstack & _ & Hwritten & Hlast).
  assert (Hredeem : redeem = [x51; xae]).
  { cbn in Hstack. apply (f_equal (@last Buffer)) in Hstack.
    rewrite last_snoc in Hstack. cbn in Hstack. congruence. }
  subst redeem. exists stack, result.
  split; [exact Hprep|]. split; [exact Hstack|].
  split; [exact Hwritten | exact Hlast].
Defined.

(** C2 fails on the code: [signVector] declines the output that
    descriptor 0 spends and returns a falsy value after the signature was
    asked for; [signTransaction] goes on to descriptor 2, signs its input
    and returns the transaction, in which the input of descriptor 0 is as
    it was handed in. *)
Lemma fold_failure_skipped :
  (forall t stack sig ring,
     MTX_signVector t (Toy.mkScript Toy.Nonstandard []) stack sig ring =
       inr None) /\
  exists w',
    LedgerBcoin.signTransaction LedgerBcoin.TheMTX [0%nat; 2%nat]
      Toy.w_others = Some (Returned LedgerBcoin.TheMTX, w') /\
    MTX.inputs (LedgerBcoin.mtx w') !! 0%nat = MTX.inputs Toy.tx1 !! 0%nat /\
    MTX.inputs (LedgerBcoin.mtx w') !! 1%nat <> MTX.inputs Toy.tx1 !! 1%nat /\
    Toy.trace w' =
      ["getPublicKey"; "getPublicKey"; "getTrustedInput"; "getTrustedInput";
       "hashTransactionStartNullify(new)"; "hashOutputFinalize"; "hashSign";
       "hashTransactionStartNullify"; "hashOutputFinalize"; "hashSign"].
Proof.
  split; [reflexivity|]. eexists.
  split; [vm_compute; reflexivity|].
  split; [vm_compute; reflexivity|].
  split; [vm_compute; discriminate | vm_compute; reflexivity].
Qed.

(** C3 fails on the code: descriptor 2 is a witness input, the priming pass
    is made with [isNew] true, and the first [hashTransactionStartNullify]
    call of the run, for descriptor 0, is passed false. *)
Lemma first_nullify_not_new :
  LedgerTXInput.witness (LedgerBcoin.heap Toy.w_signing 0%nat) = false /\
  exists w',
    LedgerBcoin.signTransaction LedgerBcoin.TheMTX [0%nat; 1%nat; 2%nat]
      Toy.w_signing = Some (Returned LedgerBcoin.TheMTX, w') /\
    omap nullifyFlag (LedgerBcoin.calls w') = [false; false] /\
    Toy.trace w' =
      ["getPublicKey"; "getPublicKey"; "getPublicKey"; "getTrustedInput";
       "hashTransactionStart"; "hashOutputFinalize";
       "hashTransactionStartNullify"; "hashOutputFinalize"; "hashSign";
       "hashTransactionStartNullify"; "hashOutputFinalize"; "hashSign";
       "hashTransactionStartSegwit"; "hashSign"].
Proof.
  split; [reflexivity|]. eexists.
  split; [vm_compute; reflexivity|]. split; vm_compute; reflexivity.
Qed.

(** Constructing a descriptor for output 7 of transaction "aa". *)
Lemma fromOptions_constructed_witness :
  exists d,
    LedgerTXInput.new_fromOptions (Some Toy.options) = inr d /\
    0 <= LedgerTXInput.index d < 2 ^ 32 /\
    LedgerTXInput._key d = "".
Proof.
  eexists.
  assert (Hrun : LedgerTXInput.new_fromOptions (Some Toy.options) = inr _)
    by (vm_compute; reflexivity).
  destruct (@fromOptions_constructed Toy.types Toy.ops _ _ Hrun)
    as (Hi & _ & Hk & _).
  split; [exact Hrun|]. split; [exact Hi | exact Hk].
Defined.

(** Options for transaction "aa" set on a descriptor whose cache holds the
    key "zz": [toKey] keeps answering "zz". *)
Lemma fromOptions_keeps_caches_witness :
  exists o d',
    LedgerTXInput.fromOptions (Some Toy.options) Toy.stale = (o, d') /\
    LedgerTXInput.toKey d' = (Returned "zz", d').
Proof.
  do 2 eexists.
  assert (Hrun : LedgerTXInput.fromOptions (Some Toy.options) Toy.stale = (_, _))
    by (vm_compute; reflexivity).
  destruct (@fromOptions_keeps_caches Toy.types Toy.ops _ _ _ _ Hrun)
    as (_ & _ & _ & _ & _ & Hk).
  split; [exact Hrun|]. apply Hk. reflexivity.
Defined.

Lemma toKey_idempotent_witness :
  exists d1,
    LedgerTXInput.toKey (Toy.descriptors 0) = (Returned "aa", d1) /\
    LedgerTXInput.toKey d1 = (Returned "aa", d1).
Proof.
  eexists.
  assert (Hrun : LedgerTXInput.toKey (Toy.descriptors 0) = (Returned "aa", _))
    by (vm_compute; reflexivity).
  split; [exact Hrun|].
  apply (@toKey_idempotent Toy.types Toy.ops _ _ _ Hrun).
Defined.

Lemma cached_coin_and_ring_ignore_arguments_witness :
  exists c d1,
    LedgerTXInput.getCoin 0 (Toy.descriptors 0) = (Returned c, d1) /\
    LedgerTXInput.getCoin 5 d1 = (Returned c, d1).
Proof.
  do 2 eexists.
  assert (Hrun : LedgerTXInput.getCoin 0 (Toy.descriptors 0) = (Returned _, _))
    by (vm_compute; reflexivity).
  split; [exact Hrun|].
  apply (proj1 (@cached_coin_and_ring_ignore_arguments Toy.types Toy.ops _ _)
           _ _ Hrun).
Defined.

(** The stale descriptor answers the key of its own transaction once it is
    refreshed. *)
Lemma refresh_then_toKey_witness :
  exists d',
    (LedgerTXInput.refresh ;;; LedgerTXInput.toKey) Toy.stale =
      (Returned "aa", d') /\
    LedgerTXInput._outpoint d' = Some ("aa", 0) /\
    LedgerTXInput._key d' = "aa".
Proof.
  apply (@refresh_then_toKey Toy.types Toy.ops Toy.stale
           ("aa", Toy.mkScript Toy.Pubkeyhash []) ("aa", 0));
    reflexivity.
Defined.

Lemma getPublicKey_one_call_witness :
  exists hd w' evs,
    LedgerBcoin.getPublicKey (Some (Options.PathString "m/44'/0'/0'")) 0
      Toy.w_signing = (Returned hd, w') /\
    LedgerBcoin.calls w' = LedgerBcoin.calls Toy.w_signing ++ evs /\
    (length evs <= 1)%nat.
Proof.
  do 2 eexists.
  assert (Hrun : LedgerBcoin.getPublicKey
                   (Some (Options.PathString "m/44'/0'/0'")) 0
                   Toy.w_signing = (Returned _, _))
    by (vm_compute; reflexivity).
  destruct (@getPublicKey_one_call Toy.types Toy.ops _ _ _ _ _ Hrun)
    as (evs & Hc & _ & _ & _ & _ & _ & Hle & _).
  exists evs. split; [exact Hrun|]. split; [exact Hc | exact Hle].
Defined.

Lemma updatePublicKeys_fills_keys_witness :
  exists w',
    LedgerBcoin.updatePublicKeys [0%nat; 2%nat] Toy.w_signing =
      (Returned tt, w') /\
    LedgerBcoin.mtx w' = LedgerBcoin.mtx Toy.w_signing /\
    is_Some (LedgerTXInput.publicKey (LedgerBcoin.heap w' 2%nat)).
Proof.
  eexists.
  assert (Hrun : LedgerBcoin.updatePublicKeys [0%nat; 2%nat] Toy.w_signing =
                 (Returned tt, _))
    by (vm_compute; reflexivity).
  destruct (@updatePublicKeys_fills_keys Toy.types Toy.ops _ _ _ _ Hrun)
    as (Hm & _ & Hall & _).
  split; [exact Hrun|]. split; [exact Hm|].
  apply (Hall eq_refl). repeat constructor.
Defined.

Lemma signTransaction_rejects_non_MTX_witness :
  LedgerBcoin.signTransaction LedgerBcoin.NotMTX [0%nat] Toy.w_signing =
    Some (Threw (AssertionError "Cannot use non-MTX tx for signing"),
          Toy.w_signing).
Proof.
  apply (@signTransaction_rejects_non_MTX Toy.types Toy.ops [0%nat]
           Toy.w_signing).
  reflexivity.
Defined.

(** Without a device. *)
Lemma signTransaction_no_descriptors_witness :
  LedgerBcoin.signTransaction LedgerBcoin.TheMTX [] (Toy.world None) =
    Some (Returned LedgerBcoin.TheMTX,
          LedgerBcoin.set_signingTX false (Toy.world None)).
Proof.
  apply (@signTransaction_no_descriptors Toy.types Toy.ops (Toy.world None)).
  reflexivity.
Defined.

(** [signVector] declines the output of descriptor 0 of [Toy.others]:
    [signInput] returns false. *)
Lemma signInput_failure_writes_nothing_witness :
  exists w',
    LedgerBcoin.signInput 0%nat ∅ (Some 0%nat) true
      (Toy.keyed Toy.w_others) = (Returned false, w') /\
    (LedgerBcoin.mtx w' = LedgerBcoin.mtx (Toy.keyed Toy.w_others) \/
     exists coin ring t,
       MTX_scriptInput (LedgerBcoin.mtx (Toy.keyed Toy.w_others))
         (Some 0%nat) coin ring = inr (t, LedgerBcoin.mtx w')).
Proof.
  eexists.
  assert (Hrun : LedgerBcoin.signInput 0%nat ∅ (Some 0%nat) true
                   (Toy.keyed Toy.w_others) = (Returned false, _))
    by (vm_compute; reflexivity).
  split; [exact Hrun|].
  apply (@signInput_failure_writes_nothing Toy.types Toy.ops _ _ _ _ _ _ _ Hrun).
  discriminate.
Defined.

(** The fold of descriptor 1, whose signature goes to the script-sig. *)
Lemma foldSignature_writes_one_vector_witness :
  exists p w1 o w',
    LedgerBcoin.hashAndSign 1%nat ∅ (Some 2%nat) true
      (Toy.keyed Toy.w_signing) = (Returned p, w1) /\
    LedgerBcoin.foldSignature p w1 = (o, w') /\
    LedgerBcoin.calls w' = LedgerBcoin.calls w1 /\
    length (MTX.inputs (LedgerBcoin.mtx w')) =
      length (MTX.inputs (LedgerBcoin.mtx w1)).
Proof.
  do 4 eexists.
  assert (Hprep : LedgerBcoin.hashAndSign 1%nat ∅ (Some 2%nat) true
                    (Toy.keyed Toy.w_signing) = (Returned _, _))
    by (vm_compute; reflexivity).
  split; [exact Hprep|].
  lazymatch goal with
  | |- LedgerBcoin.foldSignature ?p ?w1 = _ /\ _ =>
      assert (Hfold : LedgerBcoin.foldSignature p w1 = (_, _))
        by (vm_compute; reflexivity)
  end.
  destruct (@foldSignature_writes_one_vector Toy.types Toy.ops _ _ _ _ Hfold)
    as (_ & Hc & _ & _ & _ & Hlen & _).
  split; [exact Hfold|]. split; [exact Hc | exact Hlen].
Defined.


(** Signing descriptors 2, 0 and 1 in that order. *)
Lemma signatures_in_descriptor_order_witness :
  exists w' evs,
    LedgerBcoin.signTransaction LedgerBcoin.TheMTX [2%nat; 0%nat; 1%nat]
      Toy.w_signing = Some (Returned LedgerBcoin.TheMTX, w') /\
    LedgerBcoin.calls w' = LedgerBcoin.calls Toy.w_signing ++ evs /\
    omap passKey evs = ["cc"; "aa"; "bb"].
Proof.
  eexists.
  assert (Hrun : LedgerBcoin.signTransaction LedgerBcoin.TheMTX
                   [2%nat; 0%nat; 1%nat] Toy.w_signing =
                 Some (Returned LedgerBcoin.TheMTX, _))
    by (vm_compute; reflexivity).
  destruct (@signatures_in_descriptor_order Toy.types Toy.ops _ _ _ _ Hrun)
    as (evs & Hc & _ & Hkeys).
  exists evs. split; [exact Hrun|]. split; [exact Hc|].
  apply Forall2_cons_inv_l in Hkeys as (k2 & r2 & H2 & Hkeys & ->).
  apply Forall2_cons_inv_l in Hkeys as (k0 & r0 & H0 & Hkeys & ->).
  apply Forall2_cons_inv_l in Hkeys as (k1 & r1 & H1 & Hkeys & ->).
  apply Forall2_nil_inv_l in Hkeys as ->.
  vm_compute in H2, H0, H1. congruence.
Defined.

(** A run that the device rejects. *)
Lemma signTransaction_keeps_descriptors_witness :
  exists o w',
    LedgerBcoin.signTransaction LedgerBcoin.TheMTX [2%nat; 0%nat]
      Toy.w_rejecting = Some (o, w') /\
    LedgerBcoin.ledger w' = LedgerBcoin.ledger Toy.w_rejecting /\
    LedgerTXInput.path (LedgerBcoin.heap w' 0%nat) = [44; 0; 0].
Proof.
  do 2 eexists.
  assert (Hrun : LedgerBcoin.signTransaction LedgerBcoin.TheMTX
                   [2%nat; 0%nat] Toy.w_rejecting = Some (_, _))
    by (vm_compute; reflexivity).
  destruct (@signTransaction_keeps_descriptors Toy.types Toy.ops _ _ _ _ _ Hrun)
    as (Hl & _ & Hh).
  split; [exact Hrun|]. split; [exact Hl|].
  destruct (Hh 0%nat) as (Hp & _). exact Hp.
Defined.
End Instance.
